(** * sse-channel: a Server-Sent Events broadcast channel

    A shallow embedding of the two implementations found in the repository,

    - [SseChannel]    : the channel of version 1.0.4 (CORS check, history
                        de-duplication, private messages, [jsonEncode]);
    - [LibSseChannel] : [lib/sse-channel.js], the earlier channel
                        ([autoSerialize], no CORS check, no de-duplication);

    followed by the properties of the connection registry, the bounded replay
    history and the wire-frame formatter.

    JavaScript values are modelled by the fragment the channel manipulates:
    numbers are the integers (faithful for those JavaScript holds exactly,
    which it prints in decimal), strings are sequences of 8-bit code units, and
    objects are JSON trees listed in property-enumeration order.  Response
    objects are references; they are modelled by handles of type [conn] and
    everything the channel does to the outside world (writes, listeners,
    events, callbacks) is appended to an effect log, in program order. *)

From Stdlib Require Import ZArith List String Ascii Bool Lia DecimalString.
From Stdlib Require DecimalPos DecimalZ.
Import ListNotations.

Local Open Scope string_scope.
Local Open Scope Z_scope.

(* ================================================================== *)
(** * JavaScript strings *)

Definition LF : ascii := "010"%char.
Definition CR : ascii := "013"%char.
Definition DQUOTE : ascii := "034"%char.
Definition BACKSLASH : ascii := "092"%char.

(** The one-character string made of [c]. *)
Definition str1 (c : ascii) : string := String c EmptyString.

(** ['\n'] and ['\n\n']. *)
Definition NL : string := str1 LF.
Definition NLNL : string := String LF (str1 LF).

(** [s.replace(/(\r\n|\r|\n)/g, '\n')]: the string is scanned from the left,
    at each position the alternatives are tried in order, so a carriage
    return swallows the line feed that follows it. *)
Fixpoint replace_newlines (s : string) : string :=
  match s with
  | EmptyString => EmptyString
  | String c rest =>
      if (c =? CR)%char then
        match rest with
        | String c' rest' =>
            if (c' =? LF)%char then String LF (replace_newlines rest')
            else String LF (replace_newlines rest)
        | EmptyString => String LF EmptyString
        end
      else String c (replace_newlines rest)
  end.

(** [s.split(/\n/)]: the pieces between line feeds; the empty string splits
    into one empty piece. *)
Fixpoint split_LF (s : string) : list string :=
  match s with
  | EmptyString => [EmptyString]
  | String c rest =>
      if (c =? LF)%char then EmptyString :: split_LF rest
      else match split_LF rest with
           | l :: ls => String c l :: ls
           | [] => [str1 c]
           end
  end.

(** [new Array(n + 1).join(s)]: [n] copies of [s]. *)
Fixpoint repeat_string (n : nat) (s : string) : string :=
  match n with
  | O => EmptyString
  | S n' => s ++ repeat_string n' s
  end.

(* ================================================================== *)
(** * JavaScript values *)

(** Primitive values.  A number is an integer. *)
Inductive Prim : Type :=
| PUndefined
| PNull
| PBool (b : bool)
| PNum (n : Z)
| PStr (s : string).

(** Values: primitives, arrays, and plain objects whose own enumerable
    properties are listed in enumeration order. *)
#[warnings="-register-all"]
Inductive JsVal : Type :=
| JPrim (p : Prim)
| JArr (elems : list JsVal)
| JObj (props : list (string * JsVal)).

Coercion JPrim : Prim >-> JsVal.

(** [===] on primitives. *)
Definition prim_eqb (a b : Prim) : bool :=
  match a, b with
  | PUndefined, PUndefined => true
  | PNull, PNull => true
  | PBool x, PBool y => Bool.eqb x y
  | PNum x, PNum y => Z.eqb x y
  | PStr x, PStr y => String.eqb x y
  | _, _ => false
  end.

(** ToBoolean. *)
Definition prim_truthy (p : Prim) : bool :=
  match p with
  | PUndefined | PNull => false
  | PBool b => b
  | PNum n => negb (n =? 0)
  | PStr s => negb (String.eqb s "")
  end.

Definition truthy (v : JsVal) : bool :=
  match v with
  | JPrim p => prim_truthy p
  | JArr _ | JObj _ => true
  end.

(** [a || b]. *)
Definition prim_or (a b : Prim) : Prim := if prim_truthy a then a else b.
Definition js_or (a b : JsVal) : JsVal := if truthy a then a else b.

(** Number-to-string conversion of an integer. *)
Definition Number_toString (n : Z) : string :=
  NilZero.string_of_int (Z.to_int n).

(** ToString on primitives. *)
Definition prim_ToString (p : Prim) : string :=
  match p with
  | PUndefined => "undefined"
  | PNull => "null"
  | PBool true => "true"
  | PBool false => "false"
  | PNum n => Number_toString n
  | PStr s => s
  end.

(** ToString, which is also [String(v)] and what ['...' + v] appends: arrays
    join their elements with commas, [null] and [undefined] elements giving
    the empty string; a plain object prints as [[object Object]]. *)
Fixpoint ToString (v : JsVal) : string :=
  match v with
  | JPrim p => prim_ToString p
  | JArr elems =>
      String.concat ","
        (map (fun e => match e with
                       | JPrim PUndefined | JPrim PNull => ""
                       | _ => ToString e
                       end) elems)
  | JObj _ => "[object Object]"
  end.

(** The lower-case hexadecimal digit of [n < 16]. *)
Definition hex_digit (n : N) : ascii :=
  if (n <? 10)%N then ascii_of_N (48 + n) else ascii_of_N (87 + n).

(** The JSON escape of one code unit. *)
Definition JSON_escape (c : ascii) : string :=
  let n := N_of_ascii c in
  if (c =? DQUOTE)%char then String BACKSLASH (str1 DQUOTE)
  else if (c =? BACKSLASH)%char then String BACKSLASH (str1 BACKSLASH)
  else if (n =? 8)%N then String BACKSLASH "b"
  else if (n =? 12)%N then String BACKSLASH "f"
  else if (n =? 10)%N then String BACKSLASH "n"
  else if (n =? 13)%N then String BACKSLASH "r"
  else if (n =? 9)%N then String BACKSLASH "t"
  else if (n <? 32)%N then
    String BACKSLASH
      (String "u" (String "0" (String "0"
         (String (hex_digit (n / 16)) (str1 (hex_digit (n mod 16)))))))
  else str1 c.

Fixpoint JSON_escape_all (s : string) : string :=
  match s with
  | EmptyString => EmptyString
  | String c rest => JSON_escape c ++ JSON_escape_all rest
  end.

(** QuoteJSONString. *)
Definition JSON_quote (s : string) : string :=
  String DQUOTE (JSON_escape_all s ++ str1 DQUOTE).

(** [JSON.stringify(v)]; [None] is the result [undefined]. *)
Fixpoint JSON_stringify (v : JsVal) : option string :=
  match v with
  | JPrim PUndefined => None
  | JPrim PNull => Some "null"
  | JPrim (PBool true) => Some "true"
  | JPrim (PBool false) => Some "false"
  | JPrim (PNum n) => Some (Number_toString n)
  | JPrim (PStr s) => Some (JSON_quote s)
  | JArr elems =>
      Some ("[" ++ String.concat ","
              (map (fun e => match JSON_stringify e with
                             | Some s => s
                             | None => "null"
                             end) elems) ++ "]")
  | JObj props =>
      Some ("{" ++ String.concat ","
              (flat_map (fun kv : (string * JsVal)%type => let (k, x) := kv in
                                   match JSON_stringify x with
                                   | Some s => [JSON_quote k ++ ":" ++ s]
                                   | None => []
                                   end) props) ++ "}")
  end.

(** The result of [JSON.stringify] as a value. *)
Definition JSON_stringify_val (v : JsVal) : JsVal :=
  match JSON_stringify v with
  | Some s => JPrim (PStr s)
  | None => JPrim PUndefined
  end.

(** White space that the string-to-number conversion strips. *)
Definition is_space (c : ascii) : bool :=
  let n := N_of_ascii c in
  ((n =? 32) || (n =? 9) || (n =? 10) || (n =? 11) || (n =? 12) || (n =? 13))%N.

Fixpoint trim_left (s : string) : string :=
  match s with
  | String c rest => if is_space c then trim_left rest else s
  | EmptyString => EmptyString
  end.

Fixpoint string_rev_onto (s acc : string) : string :=
  match s with
  | EmptyString => acc
  | String c rest => string_rev_onto rest (String c acc)
  end.

Definition string_rev (s : string) : string := string_rev_onto s EmptyString.

Definition trim (s : string) : string :=
  string_rev (trim_left (string_rev (trim_left s))).

(** The value of a non-empty run of decimal digits, most significant first. *)
Fixpoint digits_value (s : string) (acc : Z) : option Z :=
  match s with
  | EmptyString => Some acc
  | String c rest =>
      let n := N_of_ascii c in
      if ((48 <=? n) && (n <=? 57))%N
      then digits_value rest (10 * acc + Z.of_N (n - 48))
      else None
  end.

Definition unsigned_value (s : string) : option Z :=
  match s with
  | EmptyString => None
  | _ => digits_value s 0
  end.

(** The string-to-number conversion on the decimal integer literals; [None]
    is NaN.  Strings that JavaScript reads as numbers that are not integers
    written in decimal lie outside the integer model and are given NaN. *)
Definition String_toNumber (s : string) : option Z :=
  match trim s with
  | EmptyString => Some 0
  | String "-" ds => option_map Z.opp (unsigned_value ds)
  | String "+" ds => unsigned_value ds
  | ds => unsigned_value ds
  end.

(** ToNumber on primitives; [None] is NaN. *)
Definition ToNumber (p : Prim) : option Z :=
  match p with
  | PUndefined => None
  | PNull => Some 0
  | PBool true => Some 1
  | PBool false => Some 0
  | PNum n => Some n
  | PStr s => String_toNumber s
  end.

(** [a <= b]: two strings compare by code units, anything else compares as
    numbers, and a comparison with NaN is false. *)
Definition js_le (a b : Prim) : bool :=
  match a, b with
  | PStr x, PStr y => String.leb x y
  | _, _ =>
      match ToNumber a, ToNumber b with
      | Some x, Some y => x <=? y
      | _, _ => false
      end
  end.

(** ToInt32 on an integer: wrap-around into [-2^31, 2^31). *)
Definition ToInt32 (n : Z) : Z := (n + 2 ^ 31) mod 2 ^ 32 - 2 ^ 31.

(** [x | 0]. *)
Definition bitor_zero (p : Prim) : Z :=
  match ToNumber p with
  | Some n => ToInt32 n
  | None => 0
  end.

(* ================================================================== *)
(** * Messages, requests and effects *)

(** A message object, by the four properties the channel reads; an absent
    property is [undefined]. *)
Record MsgObject : Type := {
  msg_event : Prim;
  msg_retry : Prim;
  msg_id : Prim;
  msg_data : JsVal
}.

(** What [send] accepts: a string or a message object. *)
Inductive Message : Type :=
| MText (s : string)
| MObject (m : MsgObject).

(** [msg.id]; a string has no such property. *)
Definition get_id (msg : Message) : Prim :=
  match msg with
  | MText _ => PUndefined
  | MObject m => msg_id m
  end.

(** A history entry [{ id: ..., msg: ... }]: the id and the formatted frame. *)
Record Entry : Type := {
  entry_id : Prim;
  entry_msg : string
}.

(** A response object, by reference. *)
Definition conn : Type := nat.

(** A request, by reference, with what [addClient] reads of it: the
    [last-event-id] header and the parsed query string. *)
Record Request : Type := {
  req_ref : nat;
  header_last_event_id : Prim;
  query_evs_preamble : Prim;
  query_evs_last_event_id : Prim;
  query_lastEventId : Prim
}.

(** The verdict of the [access-control] collaborator on a request: it either
    lets the request through (it returned [false]) or has dealt with it
    itself (it returned [true]), leaving a status code on the response.  What
    the collaborator itself sends on the response is its own business and is
    not part of the effect log of the channel. *)
Inductive CorsOutcome : Type :=
| CorsPass
| CorsHandled (statusCode : Z).

(** [_.bind(this.removeClient, this, res)]. *)
Inductive Listener : Type :=
| RemoveClient (res : conn).

Inductive Emitter : Type :=
| OfRequest (req : nat)
| OfResponse (res : conn).

(** The events the channel emits; the channel itself, which version 1.0.4
    passes along as first argument, is left out. *)
Inductive Event : Type :=
| EvConnect (req : nat) (res : conn)
| EvDisconnect (res : conn)
| EvMessage (msg : Message) (clients : option (list conn)).

(** What the channel does to its environment. *)
Inductive Effect : Type :=
| Socket (req : nat) (call : string)
| WriteHead (res : conn) (status : Z) (headers : list (string * string))
| Write (res : conn) (chunk : string)
| End (res : conn)
| On (target : Emitter) (event : string) (listener : Listener)
| Emit (e : Event)
| Callback (arg : Prim).

(* ================================================================== *)
(** * The monad of channel methods

    A method reads and updates the channel ([this]), appends to the effect
    log, and completes normally or throws. *)

Inductive JsError : Type :=
| TypeError.

Inductive Completion (A : Type) : Type :=
| Normal (a : A)
| Throw (e : JsError).

Arguments Normal {A} a.
Arguments Throw {A} e.

Record World (C : Type) : Type := mkWorld {
  this : C;
  log : list Effect
}.

Arguments mkWorld {C} this log.
Arguments this {C} w.
Arguments log {C} w.

Definition M (C A : Type) : Type := World C -> Completion A * World C.

Definition ret {C A : Type} (a : A) : M C A := fun w => (Normal a, w).

Definition bind {C A B : Type} (m : M C A) (k : A -> M C B) : M C B :=
  fun w =>
    match m w with
    | (Normal a, w') => k a w'
    | (Throw e, w') => (Throw e, w')
    end.

Definition throw {C A : Type} (e : JsError) : M C A := fun w => (Throw e, w).

Definition get_this {C : Type} : M C C := fun w => (Normal (this w), w).

Definition modify {C : Type} (f : C -> C) : M C unit :=
  fun w => (Normal tt, mkWorld (f (this w)) (log w)).

Definition perform {C : Type} (e : Effect) : M C unit :=
  fun w => (Normal tt, mkWorld (this w) (log w ++ [e])).

Definition lift {C A : Type} (c : Completion A) : M C A := fun w => (c, w).

Declare Scope js_scope.
Delimit Scope js_scope with js.
Notation "x <- m ;; k" := (bind m (fun x => k))
  (at level 61, m at next level, right associativity) : js_scope.
Notation "m ;; k" := (bind m (fun _ => k))
  (at level 61, right associativity) : js_scope.
Local Open Scope js_scope.

(** [if (c) { m }]. *)
Definition when {C : Type} (c : bool) (m : M C unit) : M C unit :=
  if c then m else ret tt.

(** [l.map(f)] for its effects, front to back. *)
Fixpoint for_each {C A : Type} (l : list A) (f : A -> M C unit) : M C unit :=
  match l with
  | [] => ret tt
  | x :: rest => f x ;; for_each rest f
  end.

(** The world a method leaves behind and how it completes. *)
Definition exec {C A : Type} (m : M C A) (w : World C) : World C := snd (m w).
Definition outcome {C A : Type} (m : M C A) (w : World C) : Completion A :=
  fst (m w).

(* ================================================================== *)
(** * Code common to the two implementations *)

(** [_.pull(array, value)]: every occurrence of the reference is removed. *)
Definition pull (array : list conn) (value : conn) : list conn :=
  filter (fun c => negb (Nat.eqb c value)) array.

(** [new Array(2057).join('-') + '\n']. *)
Definition preambleData : string := repeat_string 2056 "-" ++ NL.

(** The loop of [parseTextData]:
    [for (i = 0, l = lines.length; i < l; ++i) { ... }], entered at index
    [i] with [lines] the elements from [i] on. *)
Fixpoint parseTextData_loop (lines : list string) (i l : nat)
    (output : string) : string :=
  match lines with
  | [] => output
  | line :: rest =>
      let output := output ++ "data: " ++ line in
      let output := output ++ (if Nat.eqb (i + 1) l then NLNL else NL) in
      parseTextData_loop rest (S i) l output
  end.

(** [parseTextData] once its argument is a string. *)
Definition parseTextData_string (text : string) : string :=
  let data := replace_newlines text in
  let lines := split_LF data in
  let output := "" in
  parseTextData_loop lines 0 (List.length lines) output.

(** The loop of [broadcast] and of [close]:
    [var i = connections.length; while (i--) { f(connections[i]) }]. *)
Fixpoint while_down {C : Type} (connections : list conn) (i : nat)
    (f : conn -> M C unit) : M C unit :=
  match i with
  | O => ret tt
  | S i' =>
      match nth_error connections i' with
      | Some c => f c ;; while_down connections i' f
      | None => throw TypeError
      end
  end.

(** [broadcast(connections, packet)]. *)
Definition broadcast {C : Type} (connections : list conn) (packet : string)
    : M C unit :=
  let i := List.length connections in
  while_down connections i (fun c => perform (Write c packet)).

(** The scan of [sendMissedEvents]: it walks the history from the front,
    stops at the first entry whose id is [<= lastId], and unshifts the frame
    of every entry it passes. *)
Fixpoint missed_loop (history : list Entry) (lastId : Prim)
    (entries : list string) : list string :=
  match history with
  | [] => entries
  | e :: rest =>
      if js_le (entry_id e) lastId then entries
      else missed_loop rest lastId (entry_msg e :: entries)
  end.

(** [array.pop()], for what it leaves in the array. *)
Definition pop {A : Type} (array : list A) : list A := removelast array.

(** [array.slice(start)]. *)
Definition slice_from {A : Type} (start : Z) (array : list A) : list A :=
  let len := Z.of_nat (List.length array) in
  let k := if start <? 0 then Z.max (len + start) 0 else Z.min start len in
  skipn (Z.to_nat k) array.

(** [initializeConnection(opts)]; [timeout] is the argument the
    implementation gives to [socket.setTimeout], [retryLine] the text it
    writes for a retry of [retry] milliseconds. *)
Definition initializeConnection_with {C : Type} (timeout : string)
    (retryLine : Z -> string)
    (request : Request) (response : conn) (opts_retry opts_preamble : Prim)
    : M C unit :=
  perform (Socket (req_ref request) ("setTimeout(" ++ timeout ++ ")")) ;;
  perform (Socket (req_ref request) "setNoDelay(true)") ;;
  perform (Socket (req_ref request) "setKeepAlive(true)") ;;
  perform (WriteHead response 200
             [("Content-Type", "text/event-stream");
              ("Cache-Control", "no-cache");
              ("Connection", "keep-alive")]) ;;
  perform (Write response (":ok" ++ NLNL)) ;;
  let retry := bitor_zero opts_retry in
  when (negb (retry =? 0)) (perform (Write response (retryLine retry))) ;;
  when (prim_truthy opts_preamble)
       (perform (Write response (":" ++ preambleData))).

(* ================================================================== *)
(** * The channel of version 1.0.4 *)

Module SseChannel.

Record Channel : Type := {
  cors : Request -> CorsOutcome;
  name : Prim;
  jsonEncode : bool;
  historySize : Z;
  retryTimeout : Prim;
  pingInterval : Z;
  history : list Entry;
  connections : list conn;
  connectionCount : Z
}.

Definition set_history (h : list Entry) (ch : Channel) : Channel :=
  {| cors := cors ch; name := name ch; jsonEncode := jsonEncode ch;
     historySize := historySize ch; retryTimeout := retryTimeout ch;
     pingInterval := pingInterval ch; history := h;
     connections := connections ch; connectionCount := connectionCount ch |}.

Definition set_connections (cs : list conn) (ch : Channel) : Channel :=
  {| cors := cors ch; name := name ch; jsonEncode := jsonEncode ch;
     historySize := historySize ch; retryTimeout := retryTimeout ch;
     pingInterval := pingInterval ch; history := history ch;
     connections := cs; connectionCount := connectionCount ch |}.

Definition set_connectionCount (n : Z) (ch : Channel) : Channel :=
  {| cors := cors ch; name := name ch; jsonEncode := jsonEncode ch;
     historySize := historySize ch; retryTimeout := retryTimeout ch;
     pingInterval := pingInterval ch; history := history ch;
     connections := connections ch; connectionCount := n |}.

Definition Chan (A : Type) : Type := M Channel A.

(** [parseTextData(text)]: [String(text)] first. *)
Definition parseTextData (text : JsVal) : string :=
  parseTextData_string (ToString text).

(** [parseMessage(msg, jsonEncode)]. *)
Definition parseMessage (msg : Message) (jsonEncode : bool) : string :=
  match msg with
  | MText s => parseTextData (PStr s)
  | MObject m =>
      let output := "" in
      let output :=
        if prim_truthy (msg_event m)
        then output ++ "event: " ++ prim_ToString (msg_event m) ++ NL
        else output in
      let output :=
        if prim_truthy (msg_retry m)
        then output ++ "retry: " ++ prim_ToString (msg_retry m) ++ NL
        else output in
      let output :=
        if prim_truthy (msg_id m)
        then output ++ "id: " ++ prim_ToString (msg_id m) ++ NL
        else output in
      let data := js_or (msg_data m) (PStr "") in
      let data := if jsonEncode then JSON_stringify_val data else data in
      output ++ parseTextData data
  end.

(** The options of the constructor; [opts_cors] is the check the
    [access-control] module builds from [opts.cors]. *)
Record Options : Type := {
  opts_cors : Request -> CorsOutcome;
  opts_name : Prim;
  opts_history : option (list Message);
  opts_historySize : option Z;
  opts_retryTimeout : Prim;
  opts_pingInterval : Prim;
  opts_jsonEncode : Prim
}.

(** The constructor, but for the keep-alive timer it starts: [ping] is what
    every beat of that timer runs. *)
Definition new (opts : Options) : Channel :=
  let jsonEncode := prim_truthy (opts_jsonEncode opts) in
  let historySize :=
    match opts_historySize opts with
    | Some n => if n =? 0 then 500 else n
    | None => 500
    end in
  let pingInterval :=
    let n := bitor_zero (opts_pingInterval opts) in
    if n =? 0 then 20000 else n in
  {| cors := opts_cors opts;
     name := opts_name opts;
     jsonEncode := jsonEncode;
     historySize := historySize;
     retryTimeout := prim_or (opts_retryTimeout opts) PNull;
     pingInterval := pingInterval;
     history :=
       map (fun msg => {| entry_id := get_id msg;
                          entry_msg := parseMessage msg jsonEncode |})
           (rev (slice_from (0 - historySize)
                   (filter (fun msg => prim_truthy (get_id msg))
                      (match opts_history opts with
                       | Some h => h
                       | None => []
                       end))));
     connections := [];
     connectionCount := 0 |}.

Definition initializeConnection := @initializeConnection_with Channel
  "0" (fun retry => "retry: " ++ Number_toString retry ++ NL).

(** [sendMissedEvents(response, lastId)]. *)
Definition sendMissedEvents (response : conn) (lastId : Prim) : Chan unit :=
  ch <- get_this ;;
  let entries := missed_loop (history ch) lastId [] in
  for_each entries (fun msg => perform (Write response msg)).

(** [removeClient(res)]. *)
Definition removeClient (res : conn) : Chan unit :=
  modify (fun ch => set_connections (pull (connections ch) res) ch) ;;
  modify (fun ch => set_connectionCount (connectionCount ch - 1) ch) ;;
  perform (Emit (EvDisconnect res)).

(** [addClient(req, res, callback)]; [callback] tells whether one is given. *)
Definition addClient (req : Request) (res : conn) (callback : bool)
    : Chan unit :=
  ch <- get_this ;;
  match cors ch req with
  | CorsHandled statusCode =>
      when callback
        (perform (Callback (if statusCode =? 403 then PStr "cors failure"
                            else PNull)))
  | CorsPass =>
      initializeConnection req res (retryTimeout ch) (query_evs_preamble req) ;;
      modify (fun ch => set_connections (connections ch ++ [res]) ch) ;;
      modify (fun ch => set_connectionCount (connectionCount ch + 1) ch) ;;
      perform (On (OfRequest (req_ref req)) "close" (RemoveClient res)) ;;
      perform (On (OfRequest (req_ref req)) "end" (RemoveClient res)) ;;
      perform (On (OfResponse res) "finish" (RemoveClient res)) ;;
      let lastEventId :=
        prim_or (prim_or (prim_or (header_last_event_id req)
                                  (query_evs_last_event_id req))
                         (query_lastEventId req))
                (PNum 0) in
      when (prim_truthy lastEventId) (sendMissedEvents res lastEventId) ;;
      perform (Emit (EvConnect (req_ref req) res)) ;;
      when callback (perform (Callback PUndefined))
  end.

(** [getConnectionCount()]. *)
Definition getConnectionCount : Chan Z :=
  ch <- get_this ;; ret (connectionCount ch).

(** [ping()]. *)
Definition ping : Chan unit :=
  ch <- get_this ;; broadcast (connections ch) (":" ++ NL).

(** [retry(retryTimeout)]. *)
Definition retry (retryTimeout : JsVal) : Chan unit :=
  ch <- get_this ;;
  broadcast (connections ch) ("retry: " ++ ToString retryTimeout ++ NL).

(** [_.reject(this.history, { id: id })]. *)
Definition reject_id (history : list Entry) (id : Prim) : list Entry :=
  filter (fun e => negb (prim_eqb (entry_id e) id)) history.

(** [send(msg, clients)]; [clients] is [None] when the argument is left out. *)
Definition send (msg : Message) (clients : option (list conn)) : Chan unit :=
  ch <- get_this ;;
  let message := parseMessage msg (jsonEncode ch) in
  match clients with
  | None =>
      when (prim_truthy (get_id msg))
        (modify (fun ch => set_history (reject_id (history ch) (get_id msg)) ch)) ;;
      let entry := {| entry_id := get_id msg; entry_msg := message |} in
      when (prim_truthy (get_id msg))
        (modify (fun ch => set_history (entry :: history ch) ch) ;;
         ch <- get_this ;;
         when (Z.of_nat (List.length (history ch)) >? historySize ch)
           (modify (fun ch => set_history (pop (history ch)) ch)))
  | Some _ => ret tt
  end ;;
  ch <- get_this ;;
  broadcast (match clients with
             | Some cs => cs
             | None => connections ch
             end) message ;;
  perform (Emit (EvMessage msg clients)).

(** [close()]. *)
Definition close : Chan unit :=
  ch <- get_this ;;
  let i := List.length (connections ch) in
  while_down (connections ch) i (fun c => perform (End c)).

End SseChannel.

(* ================================================================== *)
(** * The channel of [lib/sse-channel.js] *)

Module LibSseChannel.

Record Channel : Type := {
  history : list Entry;
  historySize : Z;
  retryTimeout : Prim;
  pingInterval : Z;
  autoSerialize : bool;
  connections : list conn;
  connectionCount : Z
}.

Definition set_history (h : list Entry) (ch : Channel) : Channel :=
  {| history := h; historySize := historySize ch;
     retryTimeout := retryTimeout ch; pingInterval := pingInterval ch;
     autoSerialize := autoSerialize ch; connections := connections ch;
     connectionCount := connectionCount ch |}.

Definition set_connections (cs : list conn) (ch : Channel) : Channel :=
  {| history := history ch; historySize := historySize ch;
     retryTimeout := retryTimeout ch; pingInterval := pingInterval ch;
     autoSerialize := autoSerialize ch; connections := cs;
     connectionCount := connectionCount ch |}.

Definition set_connectionCount (n : Z) (ch : Channel) : Channel :=
  {| history := history ch; historySize := historySize ch;
     retryTimeout := retryTimeout ch; pingInterval := pingInterval ch;
     autoSerialize := autoSerialize ch; connections := connections ch;
     connectionCount := n |}.

Definition Chan (A : Type) : Type := M Channel A.

(** [parseTextData(text)]: [text.replace] is a method of strings only. *)
Definition parseTextData (text : JsVal) : Completion string :=
  match text with
  | JPrim (PStr s) => Normal (parseTextData_string s)
  | _ => Throw TypeError
  end.

(** [_.isString(value)]. *)
Definition isString (value : JsVal) : bool :=
  match value with
  | JPrim (PStr _) => true
  | _ => false
  end.

(** [parseMessage(msg, autoSerialize)]. *)
Definition parseMessage (msg : Message) (autoSerialize : bool)
    : Completion string :=
  match msg with
  | MText s => parseTextData (PStr s)
  | MObject m =>
      let output := "" in
      let output :=
        if prim_truthy (msg_event m)
        then output ++ "event: " ++ prim_ToString (msg_event m) ++ NL
        else output in
      let output :=
        if prim_truthy (msg_retry m)
        then output ++ "retry: " ++ prim_ToString (msg_retry m) ++ NL
        else output in
      let output :=
        if prim_truthy (msg_id m)
        then output ++ "id: " ++ prim_ToString (msg_id m) ++ NL
        else output in
      let data := js_or (msg_data m) (PStr "") in
      let data :=
        if autoSerialize && negb (isString (msg_data m))
        then JSON_stringify_val (msg_data m)
        else data in
      match parseTextData data with
      | Normal block => Normal (output ++ block)
      | Throw e => Throw e
      end
  end.

(** The options of the constructor; an option left out is [None]. *)
Record Options : Type := {
  opts_historySize : option Z;
  opts_retryTimeout : Prim;
  opts_pingInterval : Prim;
  opts_autoSerialize : option bool
}.

(** The constructor, but for the keep-alive timer it starts. *)
Definition new (opts : Options) : Channel :=
  {| history := [];
     historySize :=
       match opts_historySize opts with
       | Some n => if n =? 0 then 500 else n
       | None => 500
       end;
     retryTimeout := prim_or (opts_retryTimeout opts) PNull;
     pingInterval :=
       (let n := bitor_zero (opts_pingInterval opts) in
        if n =? 0 then 60000 else n);
     autoSerialize :=
       match opts_autoSerialize opts with
       | Some b => b
       | None => true
       end;
     connections := [];
     connectionCount := 0 |}.

Definition initializeConnection := @initializeConnection_with Channel
  "Infinity" (fun retry => "retry:" ++ Number_toString retry).

(** [sendMissedEvents(response, lastId)]. *)
Definition sendMissedEvents (response : conn) (lastId : Prim) : Chan unit :=
  ch <- get_this ;;
  let entries := missed_loop (history ch) lastId [] in
  for_each entries (fun msg => perform (Write response msg)).

(** [removeClient(res)]. *)
Definition removeClient (res : conn) : Chan unit :=
  modify (fun ch => set_connections (pull (connections ch) res) ch) ;;
  modify (fun ch => set_connectionCount (connectionCount ch - 1) ch) ;;
  perform (Emit (EvDisconnect res)).

(** [addClient(req, res)]. *)
Definition addClient (req : Request) (res : conn) : Chan unit :=
  ch <- get_this ;;
  initializeConnection req res (retryTimeout ch) (query_evs_preamble req) ;;
  modify (fun ch => set_connections (connections ch ++ [res]) ch) ;;
  modify (fun ch => set_connectionCount (connectionCount ch + 1) ch) ;;
  perform (On (OfRequest (req_ref req)) "close" (RemoveClient res)) ;;
  perform (On (OfRequest (req_ref req)) "end" (RemoveClient res)) ;;
  perform (On (OfResponse res) "finish" (RemoveClient res)) ;;
  let lastEventId :=
    prim_or (prim_or (prim_or (header_last_event_id req)
                              (query_evs_last_event_id req))
                     (query_lastEventId req))
            (PNum 0) in
  when (prim_truthy lastEventId) (sendMissedEvents res lastEventId) ;;
  perform (Emit (EvConnect (req_ref req) res)).

(** [getConnectionCount()]. *)
Definition getConnectionCount : Chan Z :=
  ch <- get_this ;; ret (connectionCount ch).

(** [ping()]. *)
Definition ping : Chan unit :=
  ch <- get_this ;; broadcast (connections ch) (":" ++ NL).

(** [retry(retryTimeout)]. *)
Definition retry (retryTimeout : JsVal) : Chan unit :=
  ch <- get_this ;;
  broadcast (connections ch) ("retry: " ++ ToString retryTimeout ++ NL).

(** [send(msg)]. *)
Definition send (msg : Message) : Chan unit :=
  ch <- get_this ;;
  message <- lift (parseMessage msg (autoSerialize ch)) ;;
  let entry := {| entry_id := get_id msg; entry_msg := message |} in
  when (prim_truthy (get_id msg))
    (modify (fun ch => set_history (entry :: history ch) ch) ;;
     ch <- get_this ;;
     when (Z.of_nat (List.length (history ch)) >? historySize ch)
       (modify (fun ch => set_history (pop (history ch)) ch))) ;;
  ch <- get_this ;;
  broadcast (connections ch) message ;;
  perform (Emit (EvMessage msg None)).

(** [close(callback)], for the connections it ends. *)
Definition close : Chan unit :=
  ch <- get_this ;;
  let i := List.length (connections ch) in
  while_down (connections ch) i (fun c => perform (End c)).

End LibSseChannel.

(* ================================================================== *)
(** * Notions used to state the properties *)

(** Whether the code unit [c] occurs in [s]. *)
Fixpoint has_char (c : ascii) (s : string) : bool :=
  match s with
  | EmptyString => false
  | String c' rest => (c' =? c)%char || has_char c rest
  end.

(** [Normalizes s t]: [t] is [s] with every CR LF pair and every lone CR
    turned into one LF, and nothing else changed. *)
Inductive Normalizes : string -> string -> Prop :=
| Normalizes_empty :
    Normalizes EmptyString EmptyString
| Normalizes_crlf s t :
    Normalizes s t ->
    Normalizes (String CR (String LF s)) (String LF t)
| Normalizes_cr s t :
    (forall r, s <> String LF r) ->
    Normalizes s t ->
    Normalizes (String CR s) (String LF t)
| Normalizes_other c s t :
    c <> CR ->
    Normalizes s t ->
    Normalizes (String c s) (String c t).

(** One [data: <line>\n] per line. *)
Definition data_lines (lines : list string) : string :=
  String.concat "" (map (fun line => "data: " ++ line ++ NL) lines).

(** The frames written to the connection [c] in an effect log, in order. *)
Definition written (c : conn) (l : list Effect) : list string :=
  flat_map (fun e => match e with
                     | Write c' chunk => if Nat.eqb c' c then [chunk] else []
                     | _ => []
                     end) l.

(** The write effects of an effect log, in order. *)
Definition writes (l : list Effect) : list (conn * string) :=
  flat_map (fun e => match e with
                     | Write c chunk => [(c, chunk)]
                     | _ => []
                     end) l.

(** The ids of a history, front (most recent) to back (oldest). *)
Definition ids (h : list Entry) : list Prim := map entry_id h.

(** The ids of the history are numbers and none is greater than one stored
    in front of it: published in non-decreasing order, stored most recent
    first. *)
Fixpoint newest_first (h : list Entry) : bool :=
  match h with
  | [] => true
  | e :: rest =>
      match entry_id e with
      | PNum n =>
          forallb (fun e' => match entry_id e' with
                             | PNum m => m <=? n
                             | _ => false
                             end) rest
          && newest_first rest
      | _ => false
      end
  end.

(** The frames of the entries whose id is strictly greater than [lastId],
    oldest first. *)
Definition missed_since (h : list Entry) (lastId : Prim) : list string :=
  rev (map entry_msg (filter (fun e => negb (js_le (entry_id e) lastId)) h)).

(** The header lines [parseMessage] puts in front of the data block. *)
Definition header_lines (m : MsgObject) : string :=
  (if prim_truthy (msg_event m)
   then "event: " ++ prim_ToString (msg_event m) ++ NL else "") ++
  (if prim_truthy (msg_retry m)
   then "retry: " ++ prim_ToString (msg_retry m) ++ NL else "") ++
  (if prim_truthy (msg_id m)
   then "id: " ++ prim_ToString (msg_id m) ++ NL else "").

(** The frame [send] formats for a message. *)
Definition frame_of (ch : SseChannel.Channel) (msg : Message) : string :=
  SseChannel.parseMessage msg (SseChannel.jsonEncode ch).

(** The history entry [send] builds for a message. *)
Definition entry_of (ch : SseChannel.Channel) (msg : Message) : Entry :=
  {| entry_id := get_id msg; entry_msg := frame_of ch msg |}.

(** A message object with a string payload. *)
Definition text_message (event retry id : Prim) (payload : string) : MsgObject :=
  {| msg_event := event; msg_retry := retry; msg_id := id;
     msg_data := JPrim (PStr payload) |}.

(** A channel open to every origin, with the default options. *)
Definition open_options : SseChannel.Options :=
  {| SseChannel.opts_cors := fun _ => CorsPass;
     SseChannel.opts_name := PUndefined;
     SseChannel.opts_history := None;
     SseChannel.opts_historySize := None;
     SseChannel.opts_retryTimeout := PUndefined;
     SseChannel.opts_pingInterval := PUndefined;
     SseChannel.opts_jsonEncode := PUndefined |}.

Definition default_options : LibSseChannel.Options :=
  {| LibSseChannel.opts_historySize := None;
     LibSseChannel.opts_retryTimeout := PUndefined;
     LibSseChannel.opts_pingInterval := PUndefined;
     LibSseChannel.opts_autoSerialize := None |}.

(** A request with neither a [last-event-id] header nor a query string. *)
Definition plain_request (ref : nat) : Request :=
  {| req_ref := ref;
     header_last_event_id := PUndefined;
     query_evs_preamble := PUndefined;
     query_evs_last_event_id := PUndefined;
     query_lastEventId := PUndefined |}.



(** Whether a text holds neither a carriage return nor a line feed. *)
Definition one_line (s : string) : bool :=
  negb (has_char CR s) && negb (has_char LF s).

(** Structural induction on values, through arrays and objects. *)
Section JsVal_induction.
Variable P : JsVal -> Prop.
Hypothesis Hprim : forall p, P (JPrim p).
Hypothesis Harr : forall elems, Forall P elems -> P (JArr elems).
Hypothesis Hobj :
  forall props, Forall (fun kv => P (snd kv)) props -> P (JObj props).

Fixpoint JsVal_induction (v : JsVal) : P v :=
  match v with
  | JPrim p => Hprim p
  | JArr elems =>
      Harr elems
        ((fix all (l : list JsVal) : Forall P l :=
            match l with
            | [] => Forall_nil P
            | x :: rest => Forall_cons x (JsVal_induction x) (all rest)
            end) elems)
  | JObj props =>
      Hobj props
        ((fix all (l : list (string * JsVal))
            : Forall (fun kv => P (snd kv)) l :=
            match l with
            | [] => Forall_nil _
            | kv :: rest =>
                Forall_cons kv (JsVal_induction (snd kv)) (all rest)
            end) props)
  end.
End JsVal_induction.

(** Whether a text ends with a line feed. *)
Fixpoint ends_with_LF (s : string) : bool :=
  match s with
  | EmptyString => false
  | String c rest =>
      match rest with
      | EmptyString => (c =? LF)%char
      | String _ _ => ends_with_LF rest
      end
  end.

(** The chunks a handshake writes to the response: the opening comment, the
    retry line when [retry | 0] is not zero, the padding when asked for. *)
Definition handshake_chunks (retryLine : Z -> string)
    (opts_retry opts_preamble : Prim) : list string :=
  ([(":ok" ++ NLNL)%string]
   ++ (if bitor_zero opts_retry =? 0 then []
       else [retryLine (bitor_zero opts_retry)])
   ++ (if prim_truthy opts_preamble
       then [(":" ++ preambleData)%string] else []))%list.

(** The id a request resumes from: the first truthy one of the
    [last-event-id] header and the query parameters [evs_last_event_id] and
    [lastEventId]; none if all are falsy. *)
Definition resume_id (req : Request) : option Prim :=
  if prim_truthy (header_last_event_id req)
  then Some (header_last_event_id req)
  else if prim_truthy (query_evs_last_event_id req)
  then Some (query_evs_last_event_id req)
  else if prim_truthy (query_lastEventId req)
  then Some (query_lastEventId req)
  else None.

(** The frames a replay writes for a request: none without a resume id. *)
Definition replayed (h : list Entry) (req : Request) : list string :=
  match resume_id req with
  | Some lastId => missed_loop h lastId []
  | None => []
  end.

(** Whether all the ids of a history are numbers. *)
Definition numeric_ids (h : list Entry) : bool :=
  forallb (fun e => match entry_id e with
                    | PNum _ => true
                    | _ => false
                    end) h.

(** The calls a user of the channel of version 1.0.4 can make. *)
Inductive Call : Type :=
| CallAddClient (req : Request) (res : conn) (callback : bool)
| CallRemoveClient (res : conn)
| CallGetConnectionCount
| CallPing
| CallRetry (retryTimeout : JsVal)
| CallSend (msg : Message) (clients : option (list conn))
| CallSendMissedEvents (response : conn) (lastId : Prim)
| CallClose.

Definition call (c : Call) : SseChannel.Chan unit :=
  match c with
  | CallAddClient req res callback => SseChannel.addClient req res callback
  | CallRemoveClient res => SseChannel.removeClient res
  | CallGetConnectionCount => bind SseChannel.getConnectionCount (fun _ => ret tt)
  | CallPing => SseChannel.ping
  | CallRetry retryTimeout => SseChannel.retry retryTimeout
  | CallSend msg clients => SseChannel.send msg clients
  | CallSendMissedEvents response lastId =>
      SseChannel.sendMissedEvents response lastId
  | CallClose => SseChannel.close
  end.

(** A run of calls, one after the other. *)
Fixpoint calls (l : list Call) : SseChannel.Chan unit :=
  match l with
  | [] => ret tt
  | c :: rest => bind (call c) (fun _ => calls rest)
  end.

(** The state of the history that the methods maintain: ids pairwise
    distinct and truthy, at most [historySize] entries, every stored frame
    ending with a line feed. *)
Definition history_ok (ch : SseChannel.Channel) : Prop :=
  NoDup (ids (SseChannel.history ch)) /\
  Z.of_nat (List.length (SseChannel.history ch)) <= SseChannel.historySize ch /\
  Forall (fun e => prim_truthy (entry_id e) = true) (SseChannel.history ch) /\
  Forall (fun e => ends_with_LF (entry_msg e) = true) (SseChannel.history ch).

(** The chunks written in an effect log. *)
Definition chunks (l : list Effect) : list string := map snd (writes l).

(** Whether a text holds no white space. *)
Fixpoint no_space (s : string) : bool :=
  match s with
  | EmptyString => true
  | String c rest => negb (is_space c) && no_space rest
  end.

(** The ids of a history are numbers, none greater than [n]. *)
Definition ids_le (n : Z) (h : list Entry) : bool :=
  forallb (fun e' => match entry_id e' with
                     | PNum m => m <=? n
                     | _ => false
                     end) h.

(** A channel of version 1.0.4 and a channel of [lib/sse-channel.js] in the
    same state: same history, history size, registry and count. *)
Definition same_channel (a : SseChannel.Channel) (b : LibSseChannel.Channel)
    : Prop :=
  SseChannel.history a = LibSseChannel.history b /\
  SseChannel.historySize a = LibSseChannel.historySize b /\
  SseChannel.connections a = LibSseChannel.connections b /\
  SseChannel.connectionCount a = LibSseChannel.connectionCount b.

(** Two channels of version 1.0.4 with the same options. *)
Definition same_options (a b : SseChannel.Channel) : Prop :=
  SseChannel.cors a = SseChannel.cors b /\
  SseChannel.name a = SseChannel.name b /\
  SseChannel.jsonEncode a = SseChannel.jsonEncode b /\
  SseChannel.historySize a = SseChannel.historySize b /\
  SseChannel.retryTimeout a = SseChannel.retryTimeout b /\
  SseChannel.pingInterval a = SseChannel.pingInterval b.



(* ================================================================== *)
(** * Strings *)

Lemma append_nil_r (s : string) : s ++ "" = s.
Proof. induction s as [|c s IH]; simpl; [reflexivity | now rewrite IH]. Qed.

Lemma append_assoc (s t u : string) : (s ++ t) ++ u = s ++ (t ++ u).
Proof. induction s as [|c s IH]; simpl; [reflexivity | now rewrite IH]. Qed.

(** The replacement is the normalization of line endings. *)
Lemma replace_newlines_Normalizes (s : string) :
  Normalizes s (replace_newlines s).
Proof.
  assert (H : forall n s, (String.length s <= n)%nat ->
                          Normalizes s (replace_newlines s)).
  { clear s. induction n as [|n IH]; intros s Hlen.
    - destruct s; simpl in Hlen; [constructor | lia].
    - destruct s as [|c rest]; [constructor|].
      simpl in Hlen. simpl.
      destruct (Ascii.eqb_spec c CR) as [->|Hc].
      + destruct rest as [|c' rest'].
        * apply Normalizes_cr; [discriminate | constructor].
        * destruct (Ascii.eqb_spec c' LF) as [->|Hc'].
          -- apply Normalizes_crlf. apply IH. simpl in Hlen. lia.
          -- apply Normalizes_cr.
             ++ intros r E. inversion E. contradiction.
             ++ apply IH. lia.
      + apply Normalizes_other; [assumption|]. apply IH. lia. }
  apply (H (String.length s)). lia.
Qed.

(** Normalization is a function: the relation has one result only. *)
Lemma Normalizes_functional (s t u : string) :
  Normalizes s t -> Normalizes s u -> t = u.
Proof.
  intros H. revert u.
  induction H as [|s t H IH|s t Hs H IH|c s t Hc H IH]; intros u Hu.
  - inversion Hu; reflexivity.
  - inversion Hu; subst.
    + f_equal. now apply IH.
    + exfalso. match goal with h : forall r, _ <> _ |- _ => now apply (h s) end.
    + congruence.
  - inversion Hu; subst.
    + exfalso. now apply (Hs s0).
    + f_equal. now apply IH.
    + congruence.
  - inversion Hu; subst; try congruence.
    f_equal. now apply IH.
Qed.

(** No carriage return is left. *)
Lemma replace_newlines_no_CR (s : string) :
  has_char CR (replace_newlines s) = false.
Proof.
  pose proof (replace_newlines_Normalizes s) as H.
  induction H as [|s t H IH|s t Hs H IH|c s t Hc H IH]; simpl.
  - reflexivity.
  - exact IH.
  - exact IH.
  - rewrite IH. destruct (Ascii.eqb_spec c CR); [contradiction | reflexivity].
Qed.

Lemma split_LF_not_nil (s : string) : split_LF s <> [].
Proof.
  induction s as [|c s IH]; simpl; [discriminate|].
  destruct (c =? LF)%char; [discriminate|].
  destruct (split_LF s); [contradiction | discriminate].
Qed.

(** Joining the pieces with line feeds gives the string back. *)
Lemma concat_split_LF (s : string) : String.concat NL (split_LF s) = s.
Proof.
  induction s as [|c s IH]; simpl; [reflexivity|].
  destruct (Ascii.eqb_spec c LF) as [->|Hc].
  - pose proof (split_LF_not_nil s) as Hne.
    destruct (split_LF s) as [|l ls]; [contradiction|].
    change (String.concat NL ("" :: l :: ls))
      with ("" ++ NL ++ String.concat NL (l :: ls)).
    rewrite IH. reflexivity.
  - pose proof (split_LF_not_nil s) as Hne.
    destruct (split_LF s) as [|l ls]; [contradiction|].
    destruct ls as [|l' ls].
    + simpl in *. now rewrite IH.
    + change (String.concat NL (String c l :: l' :: ls))
        with (String c (l ++ NL ++ String.concat NL (l' :: ls))).
      change (String.concat NL (l :: l' :: ls))
        with (l ++ NL ++ String.concat NL (l' :: ls)) in IH.
      now rewrite IH.
Qed.

(** No piece holds a line feed, and a piece holds a carriage return only if
    the string does. *)
Lemma split_LF_pieces (s line : string) :
  In line (split_LF s) ->
  has_char LF line = false /\ (has_char CR s = false -> has_char CR line = false).
Proof.
  revert line. induction s as [|c s IH]; simpl; intros line Hin.
  - destruct Hin as [<-|[]]. split; reflexivity.
  - destruct (Ascii.eqb_spec c LF) as [->|Hc].
    + destruct Hin as [<-|Hin]; [split; reflexivity|].
      destruct (IH line Hin) as [H1 H2]. split; [exact H1|].
      intros H. apply orb_false_iff in H as [_ Hs]. exact (H2 Hs).
    + pose proof (split_LF_not_nil s) as Hne.
      destruct (split_LF s) as [|l ls]; [contradiction|].
      destruct Hin as [<-|Hin].
      * destruct (IH l (or_introl eq_refl)) as [H1 H2]. simpl. split.
        -- rewrite H1. destruct (Ascii.eqb_spec c LF); [contradiction|reflexivity].
        -- intros H. apply orb_false_iff in H as [Hc' Hs].
           rewrite Hc', (H2 Hs). reflexivity.
      * destruct (IH line (or_intror Hin)) as [H1 H2]. split; [exact H1|].
        intros H. apply orb_false_iff in H as [_ Hs]. exact (H2 Hs).
Qed.

(* ================================================================== *)
(** * The frame formatter *)

Lemma data_lines_cons (line : string) (rest : list string) :
  data_lines (line :: rest) = ("data: " ++ line ++ NL) ++ data_lines rest.
Proof.
  unfold data_lines. destruct rest as [|l ls].
  - cbn [map String.concat]. now rewrite append_nil_r.
  - reflexivity.
Qed.

(** The loop emits one [data:] line per element and ends the last one with
    a blank line. *)
Lemma parseTextData_loop_data_lines (lines : list string) :
  forall (i l : nat) (output : string),
    lines <> [] ->
    (i + List.length lines = l)%nat ->
    parseTextData_loop lines i l output = output ++ data_lines lines ++ NL.
Proof.
  induction lines as [|line rest IH]; intros i l output Hne Hl.
  - contradiction.
  - cbn [parseTextData_loop]. rewrite data_lines_cons.
    destruct rest as [|line' rest'].
    + cbn [List.length] in Hl.
      replace (Nat.eqb (i + 1) l) with true
        by (symmetry; apply Nat.eqb_eq; lia).
      cbn [parseTextData_loop]. unfold data_lines. cbn [map String.concat].
      rewrite !append_assoc. reflexivity.
    + cbn [List.length] in Hl.
      replace (Nat.eqb (i + 1) l) with false
        by (symmetry; apply Nat.eqb_neq; lia).
      rewrite (IH (S i) l); [|discriminate|cbn [List.length]; lia].
      rewrite !append_assoc. reflexivity.
Qed.

Lemma parseTextData_string_data_lines (text : string) :
  parseTextData_string text
  = data_lines (split_LF (replace_newlines text)) ++ NL.
Proof.
  unfold parseTextData_string.
  rewrite parseTextData_loop_data_lines.
  - reflexivity.
  - apply split_LF_not_nil.
  - reflexivity.
Qed.

(** C4.  For every text payload, [parseTextData] (of either implementation)
    turns every CR LF and every lone CR into LF, splits the result at the
    line feeds into N >= 1 lines holding no line terminator, and emits
    exactly one [data: <line>\n] per line followed by one more [\n], so that
    the last line ends in [\n\n]; the payload [a\nb\r\nc] gives the three
    lines a, b, c and one blank line, and the empty payload gives
    [data: \n\n]. *)
Theorem C4_parseTextData_lines :
  (forall text : string,
      let data := replace_newlines text in
      let lines := split_LF data in
      Normalizes text data /\
      String.concat NL lines = data /\
      lines <> [] /\
      (forall line, In line lines ->
                    has_char CR line = false /\ has_char LF line = false) /\
      SseChannel.parseTextData (PStr text) = data_lines lines ++ NL /\
      LibSseChannel.parseTextData (PStr text)
      = Normal (data_lines lines ++ NL)) /\
  SseChannel.parseTextData
    (PStr (String "a" (String LF (String "b" (String CR (String LF "c"))))))
  = "data: a" ++ NL ++ "data: b" ++ NL ++ "data: c" ++ NL ++ NL /\
  SseChannel.parseTextData (PStr "") = "data: " ++ NL ++ NL.
Proof.
  split; [|split; reflexivity].
  intros text data lines.
  split; [apply replace_newlines_Normalizes|].
  split; [apply concat_split_LF|].
  split; [apply split_LF_not_nil|].
  split.
  - intros line Hin.
    destruct (split_LF_pieces data line Hin) as [HLF HCR].
    split; [apply HCR, replace_newlines_no_CR | exact HLF].
  - unfold SseChannel.parseTextData, LibSseChannel.parseTextData.
    cbn [ToString prim_ToString].
    now rewrite parseTextData_string_data_lines.
Qed.

(** C10.  On a message that is a plain string the two formatters agree,
    whatever the serialization flag of either. *)
Theorem C10_parseMessage_string_agree :
  forall (s : string) (autoSerialize jsonEncode : bool),
    LibSseChannel.parseMessage (MText s) autoSerialize
    = Normal (SseChannel.parseMessage (MText s) jsonEncode).
Proof.
  intros s autoSerialize jsonEncode. reflexivity.
Qed.

Lemma js_or_string (s : string) :
  js_or (JPrim (PStr s)) (JPrim (PStr "")) = JPrim (PStr s).
Proof. destruct s; reflexivity. Qed.

(** The output accumulated before the data block is the header lines. *)
Lemma header_lines_accumulated (m : MsgObject) (block : string) :
  (let output := "" in
   let output :=
     if prim_truthy (msg_event m)
     then output ++ "event: " ++ prim_ToString (msg_event m) ++ NL
     else output in
   let output :=
     if prim_truthy (msg_retry m)
     then output ++ "retry: " ++ prim_ToString (msg_retry m) ++ NL
     else output in
   let output :=
     if prim_truthy (msg_id m)
     then output ++ "id: " ++ prim_ToString (msg_id m) ++ NL
     else output in
   output ++ block)
  = header_lines m ++ block.
Proof.
  unfold header_lines. cbv zeta.
  destruct (prim_truthy (msg_event m)), (prim_truthy (msg_retry m)),
    (prim_truthy (msg_id m));
    repeat (progress (rewrite ?append_assoc, ?append_nil_r; cbn [append]));
    reflexivity.
Qed.

Lemma SseChannel_parseMessage_object (m : MsgObject) (jsonEncode : bool) :
  SseChannel.parseMessage (MObject m) jsonEncode
  = header_lines m ++
    SseChannel.parseTextData
      (if jsonEncode then JSON_stringify_val (js_or (msg_data m) (PStr ""))
       else js_or (msg_data m) (PStr "")).
Proof.
  unfold SseChannel.parseMessage. apply header_lines_accumulated.
Qed.

Lemma LibSseChannel_parseMessage_object (m : MsgObject) (autoSerialize : bool) :
  LibSseChannel.parseMessage (MObject m) autoSerialize
  = match LibSseChannel.parseTextData
            (if autoSerialize && negb (LibSseChannel.isString (msg_data m))
             then JSON_stringify_val (msg_data m)
             else js_or (msg_data m) (PStr "")) with
    | Normal block => Normal (header_lines m ++ block)
    | Throw e => Throw e
    end.
Proof.
  unfold LibSseChannel.parseMessage. cbv zeta.
  destruct (LibSseChannel.parseTextData _); [|reflexivity].
  f_equal. apply (header_lines_accumulated m a).
Qed.

(** C5, as the code has it.  In [lib/sse-channel.js] the formatter, with
    [autoSerialize] enabled, serializes the payload to JSON text only if it
    is not a string, and a string payload is used as it is; in the channel of
    version 1.0.4 the formatter, with [jsonEncode] enabled, serializes the
    payload (or [''] in place of a falsy one) always, so that a string
    payload is emitted as a quoted JSON string. *)
Theorem C5_serialization_of_payload :
  (forall (event retry id : Prim) (payload : string) (autoSerialize : bool),
      LibSseChannel.parseMessage
        (MObject (text_message event retry id payload)) autoSerialize
      = Normal (header_lines (text_message event retry id payload)
                ++ parseTextData_string payload)) /\
  (forall m : MsgObject,
      LibSseChannel.parseMessage (MObject m) true
      = if LibSseChannel.isString (msg_data m)
        then Normal (header_lines m
                     ++ parseTextData_string (ToString (msg_data m)))
        else match JSON_stringify (msg_data m) with
             | Some json =>
                 Normal (header_lines m ++ parseTextData_string json)
             | None => Throw TypeError
             end) /\
  (forall m : MsgObject,
      JSON_stringify (js_or (msg_data m) (PStr "")) <> None /\
      SseChannel.parseMessage (MObject m) true
      = header_lines m ++
        parseTextData_string
          (match JSON_stringify (js_or (msg_data m) (PStr "")) with
           | Some json => json
           | None => "undefined"
           end)) /\
  (forall (event retry id : Prim) (payload : string),
      SseChannel.parseMessage
        (MObject (text_message event retry id payload)) true
      = header_lines (text_message event retry id payload)
        ++ parseTextData_string (JSON_quote payload)).
Proof.
  split; [|split; [|split]].
  - intros event retry id payload autoSerialize.
    rewrite LibSseChannel_parseMessage_object.
    cbn [text_message msg_data LibSseChannel.isString negb].
    rewrite andb_false_r, js_or_string. reflexivity.
  - intros m. rewrite LibSseChannel_parseMessage_object.
    cbn [andb].
    destruct (msg_data m) as [p|elems|props].
    + destruct p as [| |b|n|s]; cbn [LibSseChannel.isString negb].
      * reflexivity.
      * reflexivity.
      * destruct b; reflexivity.
      * reflexivity.
      * rewrite js_or_string. reflexivity.
    + reflexivity.
    + reflexivity.
  - intros m. rewrite SseChannel_parseMessage_object.
    unfold JSON_stringify_val, SseChannel.parseTextData. split.
    + unfold js_or, truthy, prim_truthy.
      destruct (msg_data m) as [[| |[|]|n|s]|elems|props];
        try destruct (n =? 0); try destruct (String.eqb s "");
        cbn [negb JSON_stringify]; discriminate.
    + destruct (JSON_stringify _); reflexivity.
  - intros event retry id payload.
    rewrite SseChannel_parseMessage_object.
    cbn [text_message msg_data]. rewrite js_or_string. reflexivity.
Qed.

(** C5 does not hold of the channel of version 1.0.4: with [jsonEncode]
    enabled the string payload [a] is not used as it is, it is emitted as
    the JSON text of the string. *)
Lemma C5_string_payload_serialized :
  SseChannel.parseMessage
    (MObject (text_message PUndefined PUndefined PUndefined "a")) true
  = "data: " ++ String DQUOTE (String "a" (String DQUOTE NLNL)) /\
  ~ (forall (event retry id : Prim) (payload : string),
        SseChannel.parseMessage
          (MObject (text_message event retry id payload)) true
        = header_lines (text_message event retry id payload)
          ++ parseTextData_string payload).
Proof.
  split; [reflexivity|].
  intros H. specialize (H PUndefined PUndefined PUndefined "a").
  discriminate H.
Qed.

(* ================================================================== *)
(** * Loops over connections and frames *)

Lemma world_eta {C : Type} (w : World C) : mkWorld (this w) (log w) = w.
Proof. destruct w; reflexivity. Qed.

Lemma for_each_perform {C A : Type} (g : A -> Effect) (l : list A) :
  forall w : World C,
    for_each l (fun x => perform (g x)) w
    = (Normal tt, mkWorld (this w) (log w ++ map g l)).
Proof.
  induction l as [|x rest IH]; intros w.
  - cbn. now rewrite app_nil_r, world_eta.
  - cbn [for_each]. unfold bind at 1. unfold perform at 1.
    rewrite IH. cbn [this log map]. now rewrite <- app_assoc.
Qed.

Lemma firstn_S_nth_error {A : Type} (l : list A) :
  forall (i : nat) (x : A),
    nth_error l i = Some x -> firstn (S i) l = (firstn i l ++ [x])%list.
Proof.
  induction l as [|y l IH]; intros [|i] x H; try discriminate.
  - now inversion H.
  - cbn [nth_error] in H. cbn [firstn app]. f_equal.
    exact (IH i x H).
Qed.

Lemma while_down_perform {C : Type} (g : conn -> Effect) (cs : list conn) :
  forall (i : nat) (w : World C),
    (i <= List.length cs)%nat ->
    while_down cs i (fun c => perform (g c)) w
    = (Normal tt, mkWorld (this w) (log w ++ map g (rev (firstn i cs)))).
Proof.
  induction i as [|i IH]; intros w Hi.
  - cbn. now rewrite app_nil_r, world_eta.
  - cbn [while_down].
    destruct (nth_error cs i) as [c|] eqn:Hc.
    + unfold bind at 1. unfold perform at 1.
      rewrite IH by lia. cbn [this log].
      rewrite (firstn_S_nth_error cs i c Hc), rev_app_distr.
      cbn [rev app map]. now rewrite <- app_assoc.
    + apply nth_error_None in Hc. lia.
Qed.

(** [broadcast] writes the packet to the connections from the last one of
    the array to the first, and completes. *)
Lemma broadcast_writes {C : Type} (cs : list conn) (packet : string)
    (w : World C) :
  broadcast cs packet w
  = (Normal tt,
     mkWorld (this w) (log w ++ map (fun c => Write c packet) (rev cs))).
Proof.
  unfold broadcast. rewrite while_down_perform by lia.
  now rewrite firstn_all.
Qed.

Lemma written_app (c : conn) (l1 l2 : list Effect) :
  written c (l1 ++ l2)%list = (written c l1 ++ written c l2)%list.
Proof. unfold written. apply flat_map_app. Qed.

(** What a run of writes of one packet leaves on a connection: the packet,
    once per occurrence of the connection. *)
Lemma written_map_Write (c : conn) (cs : list conn) (packet : string) :
  written c (map (fun c' => Write c' packet) cs)
  = repeat packet (count_occ Nat.eq_dec cs c).
Proof.
  induction cs as [|c' cs IH]; [reflexivity|].
  cbn [map written flat_map count_occ].
  fold (written c (map (fun c'0 => Write c'0 packet) cs)). rewrite IH.
  destruct (Nat.eq_dec c' c) as [->|Hne].
  - now rewrite Nat.eqb_refl.
  - apply Nat.eqb_neq in Hne. now rewrite Hne.
Qed.

(** C7, as the code has it.  For every frame, [broadcast] completes and
    writes the frame once to every connection of the array it is given, from
    the last connection of the array to the first, which for the registry is
    from the connection added last to the one added first; [ping] does so
    with the registry. *)
Theorem C7_broadcast_reverse_registry_order :
  (forall (C : Type) (connections : list conn) (packet : string) (w : World C),
      let w' := exec (broadcast connections packet) w in
      outcome (broadcast connections packet) w = Normal tt /\
      this w' = this w /\
      log w' = (log w ++ map (fun c => Write c packet) (rev connections))%list /\
      (forall c, written c (log w')
                 = (written c (log w)
                    ++ repeat packet (count_occ Nat.eq_dec connections c))%list)) /\
  (forall w : World SseChannel.Channel,
      log (exec SseChannel.ping w)
      = (log w ++ map (fun c => Write c (":" ++ NL))
                      (rev (SseChannel.connections (this w))))%list).
Proof.
  split.
  - intros C connections packet w w'. subst w'. unfold exec, outcome.
    rewrite broadcast_writes. cbn [fst snd this log].
    repeat split.
    intros c. rewrite written_app, written_map_Write.
    now rewrite count_occ_rev.
  - intros w. unfold exec, SseChannel.ping, bind, get_this.
    rewrite broadcast_writes. reflexivity.
Qed.

(** C7 does not hold in registry order: with the registry [[1; 2]] (1 added
    first) the frame is written to 2 before it is written to 1. *)
Lemma C7_broadcast_not_registry_order :
  writes (log (exec (broadcast [1%nat; 2%nat] (":" ++ NL))
                    (mkWorld tt [])))
  = [(2%nat, ":" ++ NL); (1%nat, ":" ++ NL)] /\
  ~ (forall (connections : list conn) (packet : string) (w : World unit),
        writes (log (exec (broadcast connections packet) w))
        = (writes (log w) ++ map (fun c => (c, packet)) connections)%list).
Proof.
  split; [reflexivity|].
  intros H. specialize (H [1%nat; 2%nat] (":" ++ NL) (mkWorld tt [])).
  discriminate H.
Qed.

(* ================================================================== *)
(** * The connection registry *)

(** Pulling a connection that is not in the registry leaves it as it is. *)
Lemma pull_absent (cs : list conn) (res : conn) :
  ~ In res cs -> pull cs res = cs.
Proof.
  intros H. unfold pull. induction cs as [|c cs IH]; [reflexivity|].
  cbn [filter].
  destruct (Nat.eqb_spec c res) as [->|Hne].
  - exfalso. apply H. now left.
  - cbn [negb]. rewrite IH; [reflexivity|]. intros Hin. apply H. now right.
Qed.

(** Once pulled, a connection is not in the registry any more. *)
Lemma pull_not_In (cs : list conn) (res : conn) : ~ In res (pull cs res).
Proof.
  unfold pull. intros H. apply filter_In in H as [_ H].
  now rewrite Nat.eqb_refl in H.
Qed.

(** What [removeClient] does, in every state: it pulls the connection,
    decrements the count and emits [disconnect]. *)
Lemma SseChannel_removeClient_run (res : conn)
    (w : World SseChannel.Channel) :
  SseChannel.removeClient res w
  = (Normal tt,
     mkWorld
       (SseChannel.set_connectionCount
          (SseChannel.connectionCount (this w) - 1)
          (SseChannel.set_connections
             (pull (SseChannel.connections (this w)) res) (this w)))
       (log w ++ [Emit (EvDisconnect res)])).
Proof. reflexivity. Qed.

(** Removing a connection that is not registered leaves the registry as it
    is, and yet decrements the count. *)
Lemma removeClient_absent (res : conn) (w : World SseChannel.Channel) :
  ~ In res (SseChannel.connections (this w)) ->
  let w' := exec (SseChannel.removeClient res) w in
  SseChannel.connections (this w') = SseChannel.connections (this w) /\
  SseChannel.connectionCount (this w')
  = SseChannel.connectionCount (this w) - 1.
Proof.
  intros H w'. subst w'. unfold exec.
  rewrite SseChannel_removeClient_run. cbn.
  split; [now apply pull_absent | reflexivity].
Qed.

(** After a removal the connection is not registered any more. *)
Lemma removeClient_removes (res : conn) (w : World SseChannel.Channel) :
  ~ In res (SseChannel.connections (this (exec (SseChannel.removeClient res) w))).
Proof.
  unfold exec. rewrite SseChannel_removeClient_run. cbn.
  apply pull_not_In.
Qed.

(** C1.  The count does not track the removals: a client is added, then
    removed twice, as when the [close] and the [finish] listeners both fire.
    The second removal finds nothing to remove and leaves the registry empty,
    yet decrements the count again: the count is [-1] for an empty registry,
    in both implementations. *)
Theorem C1_removeClient_twice_decrements_twice :
  let w1 := exec (SseChannel.addClient (plain_request 0) 1%nat false)
                 (mkWorld (SseChannel.new open_options) []) in
  let w2 := exec (SseChannel.removeClient 1%nat) w1 in
  let w3 := exec (SseChannel.removeClient 1%nat) w2 in
  let v1 := exec (LibSseChannel.addClient (plain_request 0) 1%nat)
                 (mkWorld (LibSseChannel.new default_options) []) in
  let v2 := exec (LibSseChannel.removeClient 1%nat) v1 in
  let v3 := exec (LibSseChannel.removeClient 1%nat) v2 in
  (SseChannel.connections (this w1) = [1%nat] /\
   SseChannel.connectionCount (this w1) = 1) /\
  (SseChannel.connections (this w2) = [] /\
   SseChannel.connectionCount (this w2) = 0) /\
  (SseChannel.connections (this w3) = [] /\
   SseChannel.connectionCount (this w3) = -1 /\
   outcome SseChannel.getConnectionCount w3 = Normal (-1)) /\
  (LibSseChannel.connections (this v2) = [] /\
   LibSseChannel.connectionCount (this v2) = 0) /\
  (LibSseChannel.connections (this v3) = [] /\
   LibSseChannel.connectionCount (this v3) = -1).
Proof.
  cbv zeta. repeat split; vm_compute; reflexivity.
Qed.

(* ================================================================== *)
(** * Publishing *)

(** A publish to explicit clients: the channel is left as it is, the frame
    goes to the clients, last one first, and [message] is emitted. *)
Lemma send_clients_run (msg : Message) (clients : list conn)
    (w : World SseChannel.Channel) :
  SseChannel.send msg (Some clients) w
  = (Normal tt,
     mkWorld (this w)
       (log w
        ++ map (fun c => Write c (frame_of (this w) msg)) (rev clients)
        ++ [Emit (EvMessage msg (Some clients))])).
Proof.
  unfold SseChannel.send, bind, get_this, ret.
  rewrite broadcast_writes. unfold perform. cbn [this log].
  now rewrite <- app_assoc.
Qed.

(** A publish of a message with a falsy id to the channel. *)
Lemma send_unidentified_run (msg : Message) (w : World SseChannel.Channel) :
  prim_truthy (get_id msg) = false ->
  SseChannel.send msg None w
  = (Normal tt,
     mkWorld (this w)
       (log w
        ++ map (fun c => Write c (frame_of (this w) msg))
               (rev (SseChannel.connections (this w)))
        ++ [Emit (EvMessage msg None)])).
Proof.
  intros Hid.
  unfold SseChannel.send, bind, get_this, when. rewrite Hid.
  unfold ret. cbn [this log].
  rewrite broadcast_writes. unfold perform. cbn [this log].
  now rewrite <- app_assoc.
Qed.

(** A publish of a message with a truthy id to the channel. *)
Lemma send_identified_run (msg : Message) (w : World SseChannel.Channel) :
  prim_truthy (get_id msg) = true ->
  let pushed :=
    entry_of (this w) msg
    :: SseChannel.reject_id (SseChannel.history (this w)) (get_id msg) in
  let kept :=
    if Z.of_nat (List.length pushed) >? SseChannel.historySize (this w)
    then pop pushed else pushed in
  SseChannel.send msg None w
  = (Normal tt,
     mkWorld (SseChannel.set_history kept (this w))
       (log w
        ++ map (fun c => Write c (frame_of (this w) msg))
               (rev (SseChannel.connections (this w)))
        ++ [Emit (EvMessage msg None)])).
Proof.
  intros Hid pushed kept. subst pushed kept.
  unfold SseChannel.send, bind, get_this, when, modify. rewrite Hid.
  cbn [this log SseChannel.set_history SseChannel.history
       SseChannel.historySize SseChannel.jsonEncode].
  fold (frame_of (this w) msg). fold (entry_of (this w) msg).
  destruct (Z.of_nat _ >? SseChannel.historySize (this w));
    unfold ret; cbn [this log];
    rewrite broadcast_writes; unfold perform; cbn [this log];
    rewrite <- app_assoc; reflexivity.
Qed.

(* ================================================================== *)
(** * The history *)

Lemma prim_eqb_eq (a b : Prim) : prim_eqb a b = true <-> a = b.
Proof.
  destruct a as [| |x|x|x], b as [| |y|y|y]; cbn [prim_eqb];
    try (split; [discriminate | congruence]); try tauto.
  - rewrite Bool.eqb_true_iff. split; congruence.
  - rewrite Z.eqb_eq. split; congruence.
  - rewrite String.eqb_eq. split; congruence.
Qed.

(** What [_.reject] keeps: the entries with another id, in their order. *)
Lemma reject_id_In (h : list Entry) (id : Prim) (e : Entry) :
  In e (SseChannel.reject_id h id) <-> In e h /\ entry_id e <> id.
Proof.
  unfold SseChannel.reject_id. rewrite filter_In.
  split; intros [Hin H]; (split; [exact Hin|]).
  - intros E. apply prim_eqb_eq in E. now rewrite E in H.
  - destruct (prim_eqb (entry_id e) id) eqn:E; [|reflexivity].
    apply prim_eqb_eq in E. contradiction.
Qed.

Lemma reject_id_absent (h : list Entry) (id : Prim) :
  ~ In id (ids (SseChannel.reject_id h id)).
Proof.
  unfold ids. intros H. apply in_map_iff in H as [e [E Hin]].
  apply reject_id_In in Hin as [_ Hne]. contradiction.
Qed.

Lemma NoDup_ids_filter (p : Entry -> bool) (h : list Entry) :
  NoDup (ids h) -> NoDup (ids (filter p h)).
Proof.
  unfold ids. induction h as [|e h IH]; intros H; [constructor|].
  inversion H as [|x l Hx Hl]; subst.
  cbn [filter]. destruct (p e); [|now apply IH].
  cbn [map]. constructor; [|now apply IH].
  intros Hin. apply Hx.
  apply in_map_iff in Hin as [e' [E Hin]].
  apply filter_In in Hin as [Hin _].
  apply in_map_iff. now exists e'.
Qed.

Lemma removelast_snoc {A : Type} (l : list A) :
  l <> [] -> exists x, l = (removelast l ++ [x])%list.
Proof.
  intros H. destruct l as [|d l]; [contradiction|].
  exists (last (d :: l) d). now apply app_removelast_last.
Qed.

(** C2.  On the channel of version 1.0.4, every publish of a message with a
    truthy id to the channel preserves the invariant of the history: if the
    ids of the history were pairwise distinct and its length at most
    [historySize], they still are afterwards.  The entries that had the id of
    the message are removed and the others kept; the new entry is put in
    front of them; and if that makes the history longer than [historySize],
    exactly one entry, the last (oldest) one, is dropped. *)
Theorem C2_send_preserves_history_invariant :
  forall (w : World SseChannel.Channel) (msg : Message),
    prim_truthy (get_id msg) = true ->
    NoDup (ids (SseChannel.history (this w))) ->
    Z.of_nat (List.length (SseChannel.history (this w)))
    <= SseChannel.historySize (this w) ->
    let w' := exec (SseChannel.send msg None) w in
    let h := SseChannel.history (this w) in
    let h' := SseChannel.history (this w') in
    let size := SseChannel.historySize (this w) in
    let kept := SseChannel.reject_id h (get_id msg) in
    let entry := entry_of (this w) msg in
    outcome (SseChannel.send msg None) w = Normal tt /\
    SseChannel.historySize (this w') = size /\
    NoDup (ids h') /\
    Z.of_nat (List.length h') <= size /\
    (forall e, In e kept <-> In e h /\ entry_id e <> get_id msg) /\
    (Z.of_nat (List.length (entry :: kept)) <= size -> h' = entry :: kept) /\
    (Z.of_nat (List.length (entry :: kept)) > size ->
     exists oldest, entry :: kept = (h' ++ [oldest])%list) /\
    (0 < size -> exists rest, h' = entry :: rest).
Proof.
  intros w msg Hid Hnodup Hsize w' h h' size kept entry.
  subst w' h'. unfold exec, outcome.
  rewrite (send_identified_run msg w Hid).
  cbn [fst snd this SseChannel.set_history SseChannel.history
       SseChannel.historySize].
  fold h size kept entry.
  assert (Hbound : Z.of_nat (List.length h) <= size) by exact Hsize.
  assert (Hkept : (List.length kept <= List.length h)%nat)
    by apply filter_length_le.
  assert (Hpushed : NoDup (ids (entry :: kept))).
  { unfold ids. cbn [map]. constructor.
    - apply reject_id_absent.
    - apply NoDup_ids_filter. exact Hnodup. }
  destruct (removelast_snoc (entry :: kept)) as [oldest Hold]; [discriminate|].
  assert (Hlen : List.length kept = List.length (pop (entry :: kept))).
  { unfold pop. apply (f_equal (@List.length Entry)) in Hold.
    rewrite length_app in Hold. cbn [List.length] in Hold. lia. }
  split; [reflexivity|]. split; [reflexivity|].
  destruct (Z.of_nat (List.length (entry :: kept)) >? size) eqn:Hgt.
  - apply Z.gtb_lt in Hgt.
    assert (Hfull : List.length kept = List.length h /\
                    Z.of_nat (List.length h) = size).
    { cbn [List.length] in Hgt. lia. }
    split; [|split; [|split; [|split; [|split]]]].
    + unfold pop, ids. unfold ids in Hpushed. rewrite Hold in Hpushed.
      rewrite map_app in Hpushed.
      now apply NoDup_app_remove_r in Hpushed.
    + lia.
    + intros e. apply reject_id_In.
    + intros Hle. lia.
    + intros _. exists oldest. exact Hold.
    + intros Hpos. unfold pop. cbn [removelast].
      destruct kept as [|k kept']; [cbn [List.length] in Hgt; lia|].
      now exists (removelast (k :: kept')).
  - assert (Hle : Z.of_nat (List.length (entry :: kept)) <= size).
    { destruct (Z.gtb_spec (Z.of_nat (List.length (entry :: kept))) size);
        [discriminate | lia]. }
    split; [exact Hpushed|]. split; [exact Hle|].
    split; [intros e; apply reject_id_In|].
    split; [reflexivity|]. split; [intros Hgt'; lia|].
    intros _. now exists kept.
Qed.

(** C2, at an instance: a history full with the ids 2 and 1, to which id 3
    is published. *)
Lemma C2_send_preserves_history_invariant_witness :
  let w :=
    mkWorld
      (SseChannel.new
         {| SseChannel.opts_cors := fun _ => CorsPass;
            SseChannel.opts_name := PUndefined;
            SseChannel.opts_history :=
              Some [MObject (text_message PUndefined PUndefined (PNum 1) "a");
                    MObject (text_message PUndefined PUndefined (PNum 2) "b")];
            SseChannel.opts_historySize := Some 2;
            SseChannel.opts_retryTimeout := PUndefined;
            SseChannel.opts_pingInterval := PUndefined;
            SseChannel.opts_jsonEncode := PUndefined |}) [] in
  let msg := MObject (text_message PUndefined PUndefined (PNum 3) "c") in
  let w' := exec (SseChannel.send msg None) w in
  ids (SseChannel.history (this w)) = [PNum 2; PNum 1] /\
  NoDup (ids (SseChannel.history (this w'))) /\
  Z.of_nat (List.length (SseChannel.history (this w'))) <= 2 /\
  ids (SseChannel.history (this w')) = [PNum 3; PNum 2].
Proof.
  cbv zeta.
  split; [reflexivity|].
  match goal with
  | |- NoDup (ids (SseChannel.history (this (exec (SseChannel.send ?m None) ?w)))) /\ _ =>
      destruct (C2_send_preserves_history_invariant w m)
        as (_ & _ & Hnodup & Hlen & _)
  end.
  - reflexivity.
  - vm_compute. repeat constructor; cbn; intuition discriminate.
  - vm_compute. discriminate.
  - split; [exact Hnodup|]. split; [exact Hlen|]. reflexivity.
Defined.

(** A republished id: the channel of version 1.0.4 keeps one entry for it,
    with the latest frame, in front. *)
Lemma SseChannel_send_replaces_stale_entry :
  let msg (id : Z) payload :=
    MObject (text_message PUndefined PUndefined (PNum id) payload) in
  let w1 := exec (SseChannel.send (msg 2 "old") None)
                 (mkWorld (SseChannel.new open_options) []) in
  let w2 := exec (SseChannel.send (msg 3 "other") None) w1 in
  let w3 := exec (SseChannel.send (msg 2 "new") None) w2 in
  SseChannel.history (this w3)
  = [{| entry_id := PNum 2;
        entry_msg := "id: 2" ++ NL ++ "data: new" ++ NLNL |};
     {| entry_id := PNum 3;
        entry_msg := "id: 3" ++ NL ++ "data: other" ++ NLNL |}].
Proof. reflexivity. Qed.

(** The earlier channel of [lib/sse-channel.js] has no de-duplication: a
    republished id leaves the stale entry in the history. *)
Lemma LibSseChannel_send_keeps_stale_entry :
  let msg payload :=
    MObject (text_message PUndefined PUndefined (PNum 2) payload) in
  let v1 := exec (LibSseChannel.send (msg "old"))
                 (mkWorld (LibSseChannel.new default_options) []) in
  let v2 := exec (LibSseChannel.send (msg "new")) v1 in
  ids (LibSseChannel.history (this v2)) = [PNum 2; PNum 2].
Proof. reflexivity. Qed.

(** It keeps the history within [historySize] all the same. *)
Lemma LibSseChannel_send_bounded (msg : Message)
    (w : World LibSseChannel.Channel) :
  Z.of_nat (List.length (LibSseChannel.history (this w)))
  <= LibSseChannel.historySize (this w) ->
  let w' := exec (LibSseChannel.send msg) w in
  LibSseChannel.historySize (this w') = LibSseChannel.historySize (this w) /\
  Z.of_nat (List.length (LibSseChannel.history (this w')))
  <= LibSseChannel.historySize (this w).
Proof.
  intros Hsize w'. subst w'.
  unfold exec, LibSseChannel.send, bind, get_this, lift, when, modify.
  destruct (LibSseChannel.parseMessage msg _) as [message|err];
    [|split; [reflexivity | exact Hsize]].
  destruct (prim_truthy (get_id msg)).
  - cbn [this log LibSseChannel.set_history LibSseChannel.history
         LibSseChannel.historySize].
    set (pushed := {| entry_id := get_id msg; entry_msg := message |}
                   :: LibSseChannel.history (this w)).
    destruct (Z.of_nat (List.length pushed)
              >? LibSseChannel.historySize (this w)) eqn:Hgt;
      unfold ret; cbn [this log]; rewrite broadcast_writes;
      unfold perform; cbn [snd this log LibSseChannel.set_history
                           LibSseChannel.history LibSseChannel.historySize];
      (split; [reflexivity|]).
    + destruct (removelast_snoc pushed) as [oldest Hold]; [discriminate|].
      apply (f_equal (@List.length Entry)) in Hold.
      rewrite length_app in Hold. unfold pop. subst pushed.
      cbn [List.length] in Hold. cbn [List.length]. lia.
    + destruct (Z.gtb_spec (Z.of_nat (List.length pushed))
                  (LibSseChannel.historySize (this w)));
        [discriminate | lia].
  - unfold ret. cbn [this log]. rewrite broadcast_writes.
    unfold perform. cbn [snd this log]. split; [reflexivity | exact Hsize].
Qed.

Lemma written_sent (c : conn) (l : list Effect) (cs : list conn)
    (frame : string) (e : Event) :
  written c (l ++ map (fun c' => Write c' frame) (rev cs) ++ [Emit e])
  = (written c l ++ repeat frame (count_occ Nat.eq_dec cs c))%list.
Proof.
  rewrite !written_app, written_map_Write, count_occ_rev.
  cbn. now rewrite app_nil_r.
Qed.

(** Whatever the id of the message, a publish to the channel writes the
    frame to the registry, last connection first, and emits [message]. *)
Lemma send_all_log (msg : Message) (w : World SseChannel.Channel) :
  log (exec (SseChannel.send msg None) w)
  = (log w
     ++ map (fun c => Write c (frame_of (this w) msg))
            (rev (SseChannel.connections (this w)))
     ++ [Emit (EvMessage msg None)])%list.
Proof.
  unfold exec. destruct (prim_truthy (get_id msg)) eqn:Hid.
  - now rewrite (send_identified_run msg w Hid).
  - now rewrite (send_unidentified_run msg w Hid).
Qed.

(** C6.  On the channel of version 1.0.4, publishing to the channel a
    message whose id is falsy completes, leaves the channel, its history
    included, as it was, so that every later replay gives what it would have
    given before, and writes the formatted frame to every connection of the
    registry. *)
Theorem C6_send_without_id :
  forall (w : World SseChannel.Channel) (msg : Message),
    prim_truthy (get_id msg) = false ->
    let w' := exec (SseChannel.send msg None) w in
    let frame := frame_of (this w) msg in
    outcome (SseChannel.send msg None) w = Normal tt /\
    this w' = this w /\
    SseChannel.history (this w') = SseChannel.history (this w) /\
    (forall lastId,
        missed_loop (SseChannel.history (this w')) lastId []
        = missed_loop (SseChannel.history (this w)) lastId []) /\
    log w'
    = (log w
       ++ map (fun c => Write c frame) (rev (SseChannel.connections (this w)))
       ++ [Emit (EvMessage msg None)])%list /\
    (forall c,
        written c (log w')
        = (written c (log w)
           ++ repeat frame
                (count_occ Nat.eq_dec (SseChannel.connections (this w)) c))%list).
Proof.
  intros w msg Hid w' frame. subst w' frame. unfold exec, outcome.
  rewrite (send_unidentified_run msg w Hid). cbn [fst snd this log].
  repeat split. intros c. apply written_sent.
Qed.

(** C6, at an instance: a message without id, and one with id 0, published
    to a channel with two connections. *)
Lemma C6_send_without_id_witness :
  let w :=
    mkWorld (SseChannel.set_connections [1%nat; 2%nat]
               (SseChannel.new open_options)) [] in
  let msg := MObject (text_message PUndefined PUndefined (PNum 0) "x") in
  prim_truthy (get_id msg) = false /\
  SseChannel.history (this (exec (SseChannel.send msg None) w))
  = SseChannel.history (this w) /\
  written 1%nat (log (exec (SseChannel.send msg None) w))
  = ["data: x" ++ NLNL].
Proof.
  cbv zeta. split; [reflexivity|].
  match goal with
  | |- SseChannel.history (this (exec (SseChannel.send ?m None) ?w)) = _ /\ _ =>
      destruct (C6_send_without_id w m eq_refl)
        as (_ & _ & Hhist & _ & _ & Hwritten)
  end.
  split; [exact Hhist|].
  rewrite Hwritten. reflexivity.
Defined.

(** C8.  On the channel of version 1.0.4, publishing a message to an
    explicit array of clients completes, leaves the channel, its history
    included, as it was, and writes the frame, the one a publish to the
    channel writes to the registry, to the clients of the array and to no
    other connection. *)
Theorem C8_send_to_clients :
  forall (w : World SseChannel.Channel) (msg : Message) (clients : list conn),
    let w' := exec (SseChannel.send msg (Some clients)) w in
    let frame := frame_of (this w) msg in
    outcome (SseChannel.send msg (Some clients)) w = Normal tt /\
    this w' = this w /\
    SseChannel.history (this w') = SseChannel.history (this w) /\
    log w'
    = (log w ++ map (fun c => Write c frame) (rev clients)
       ++ [Emit (EvMessage msg (Some clients))])%list /\
    (forall c,
        written c (log w')
        = (written c (log w)
           ++ repeat frame (count_occ Nat.eq_dec clients c))%list) /\
    (forall c, ~ In c clients -> written c (log w') = written c (log w)) /\
    (forall c,
        written c (log (exec (SseChannel.send msg None) w))
        = (written c (log w)
           ++ repeat frame
                (count_occ Nat.eq_dec (SseChannel.connections (this w)) c))%list).
Proof.
  intros w msg clients w' frame. subst w' frame. unfold exec, outcome.
  rewrite send_clients_run. cbn [fst snd this log].
  split; [reflexivity|]. split; [reflexivity|]. split; [reflexivity|].
  split; [reflexivity|]. split; [|split].
  - intros c. apply written_sent.
  - intros c Hc. rewrite written_sent.
    apply (count_occ_not_In Nat.eq_dec) in Hc. rewrite Hc.
    cbn. now rewrite app_nil_r.
  - intros c. fold (exec (SseChannel.send msg None) w).
    rewrite send_all_log. apply written_sent.
Qed.

(* ================================================================== *)
(** * Replay *)

Lemma missed_loop_acc (h : list Entry) (lastId : Prim) :
  forall entries : list string,
    missed_loop h lastId entries
    = (missed_loop h lastId [] ++ entries)%list.
Proof.
  induction h as [|e rest IH]; intros entries; [reflexivity|].
  cbn [missed_loop]. destruct (js_le (entry_id e) lastId); [reflexivity|].
  rewrite (IH (entry_msg e :: entries)), (IH [entry_msg e]).
  now rewrite <- app_assoc.
Qed.

(** Against a [lastId] that reads as the number [n], be it a number or the
    text of a header, a numeric id compares as a number. *)
Lemma js_le_number (m : Z) (lastId : Prim) (n : Z) :
  ToNumber lastId = Some n -> js_le (PNum m) lastId = (m <=? n).
Proof.
  intros H. destruct lastId as [| |b|k|s]; cbn [ToNumber] in H.
  - discriminate H.
  - injection H as <-. reflexivity.
  - destruct b; injection H as <-; reflexivity.
  - injection H as <-. reflexivity.
  - unfold js_le. cbn [ToNumber]. now rewrite H.
Qed.

(** Behind an entry whose id is at most [lastId], a history stored most
    recent first holds no entry newer than [lastId]. *)
Lemma no_newer_behind (rest : list Entry) (k : Z) (lastId : Prim) (n : Z) :
  ToNumber lastId = Some n ->
  forallb (fun e' => match entry_id e' with
                     | PNum m => m <=? k
                     | _ => false
                     end) rest = true ->
  k <= n ->
  filter (fun e => negb (js_le (entry_id e) lastId)) rest = [].
Proof.
  intros Hnum Hall Hk. induction rest as [|e rest IH]; [reflexivity|].
  cbn [forallb] in Hall. apply andb_true_iff in Hall as [He Hall].
  cbn [filter]. destruct (entry_id e) as [| |b|m|s]; try discriminate.
  apply Z.leb_le in He. rewrite (js_le_number m lastId n Hnum).
  replace (m <=? n) with true by (symmetry; apply Z.leb_le; lia).
  cbn [negb]. now apply IH.
Qed.

(** On a history stored most recent first, the scan that stops at the first
    entry not newer than [lastId] finds every newer entry. *)
Lemma missed_loop_missed_since (h : list Entry) (lastId : Prim) (n : Z) :
  ToNumber lastId = Some n ->
  newest_first h = true ->
  missed_loop h lastId [] = missed_since h lastId.
Proof.
  intros Hnum. unfold missed_since.
  induction h as [|e rest IH]; intros Hsorted; [reflexivity|].
  cbn [newest_first] in Hsorted. cbn [missed_loop filter].
  destruct (entry_id e) as [| |b|k|s] eqn:Hid; try discriminate.
  apply andb_true_iff in Hsorted as [Hall Hrest].
  rewrite (js_le_number k lastId n Hnum).
  destruct (k <=? n) eqn:Hle; cbn [negb].
  - apply Z.leb_le in Hle.
    now rewrite (no_newer_behind rest k lastId n Hnum Hall Hle).
  - rewrite missed_loop_acc, (IH Hrest). reflexivity.
Qed.

Lemma SseChannel_sendMissedEvents_run (response : conn) (lastId : Prim)
    (w : World SseChannel.Channel) :
  SseChannel.sendMissedEvents response lastId w
  = (Normal tt,
     mkWorld (this w)
       (log w ++ map (fun msg => Write response msg)
                     (missed_loop (SseChannel.history (this w)) lastId []))).
Proof.
  unfold SseChannel.sendMissedEvents, bind, get_this.
  now rewrite for_each_perform.
Qed.

Lemma LibSseChannel_sendMissedEvents_run (response : conn) (lastId : Prim)
    (w : World LibSseChannel.Channel) :
  LibSseChannel.sendMissedEvents response lastId w
  = (Normal tt,
     mkWorld (this w)
       (log w ++ map (fun msg => Write response msg)
                     (missed_loop (LibSseChannel.history (this w)) lastId []))).
Proof.
  unfold LibSseChannel.sendMissedEvents, bind, get_this.
  now rewrite for_each_perform.
Qed.

Lemma reject_id_fresh (h : list Entry) (id : Prim) :
  (forall e, In e h -> entry_id e <> id) -> SseChannel.reject_id h id = h.
Proof.
  unfold SseChannel.reject_id.
  induction h as [|e h IH]; intros Hfresh; [reflexivity|].
  cbn [filter].
  destruct (prim_eqb (entry_id e) id) eqn:E.
  - apply prim_eqb_eq in E. exfalso. apply (Hfresh e); [now left | exact E].
  - cbn [negb]. rewrite IH; [reflexivity|].
    intros e' Hin. apply Hfresh. now right.
Qed.

(** Publishing a message whose id no entry carries, to a history with room
    left, puts the new entry in front and changes nothing else. *)
Lemma send_fresh_run (msg : Message) (w : World SseChannel.Channel) :
  prim_truthy (get_id msg) = true ->
  (forall e, In e (SseChannel.history (this w)) ->
             entry_id e <> get_id msg) ->
  Z.of_nat (List.length (SseChannel.history (this w)))
  < SseChannel.historySize (this w) ->
  this (exec (SseChannel.send msg None) w)
  = SseChannel.set_history
      (entry_of (this w) msg :: SseChannel.history (this w)) (this w).
Proof.
  intros Hid Hfresh Hroom. unfold exec.
  rewrite (send_identified_run msg w Hid). cbn [snd this].
  rewrite (reject_id_fresh _ _ Hfresh).
  replace (Z.of_nat (List.length (entry_of (this w) msg
                                  :: SseChannel.history (this w)))
           >? SseChannel.historySize (this w)) with false; [reflexivity|].
  symmetry. cbn [List.length].
  destruct (Z.gtb_spec (Z.of_nat (S (List.length (SseChannel.history (this w)))))
              (SseChannel.historySize (this w))); [lia | reflexivity].
Qed.

(** One step of a run of publishes with fresh ids: [Hprev] gives the channel
    before the step. *)
Ltac publish_fresh Hprev :=
  rewrite send_fresh_run; rewrite ?Hprev;
  cbn [SseChannel.history SseChannel.historySize SseChannel.set_history
       List.length];
  [ reflexivity
  | match goal with H : get_id _ = _ |- prim_truthy (get_id _) = true =>
      rewrite H; reflexivity
    end
  | intros entry Hin; cbn [In] in Hin;
    repeat match goal with
      | H : _ \/ _ |- _ => destruct H as [H|H]
      | H : False |- _ => destruct H
      end;
    subst entry; cbn [entry_id entry_of];
    repeat match goal with H : get_id _ = _ |- _ => rewrite H end;
    discriminate
  | lia ].

(** C3.  On a history stored most recent first whose ids are numbers in
    non-decreasing order of publication, and for a [lastId] that is a number
    or reads as one, [sendMissedEvents] (of either implementation) completes
    and writes to the response, oldest first, exactly the stored frames of
    the entries whose id is strictly greater than [lastId].  In particular,
    after the ids 1 to 5 were published to an empty history of size at least
    5, a replay from [lastId = 3] writes the frame of id 4, then the frame of
    id 5, and nothing else. *)
Theorem C3_sendMissedEvents_replays_newer :
  (forall (w : World SseChannel.Channel) (response : conn) (lastId : Prim)
          (n : Z),
      ToNumber lastId = Some n ->
      newest_first (SseChannel.history (this w)) = true ->
      SseChannel.sendMissedEvents response lastId w
      = (Normal tt,
         mkWorld (this w)
           (log w ++ map (fun msg => Write response msg)
                         (missed_since (SseChannel.history (this w))
                                       lastId)))) /\
  (forall (w : World LibSseChannel.Channel) (response : conn) (lastId : Prim)
          (n : Z),
      ToNumber lastId = Some n ->
      newest_first (LibSseChannel.history (this w)) = true ->
      LibSseChannel.sendMissedEvents response lastId w
      = (Normal tt,
         mkWorld (this w)
           (log w ++ map (fun msg => Write response msg)
                         (missed_since (LibSseChannel.history (this w))
                                       lastId)))) /\
  (forall (w : World SseChannel.Channel) (m1 m2 m3 m4 m5 : Message)
          (response : conn),
      SseChannel.history (this w) = [] ->
      5 <= SseChannel.historySize (this w) ->
      get_id m1 = PNum 1 -> get_id m2 = PNum 2 -> get_id m3 = PNum 3 ->
      get_id m4 = PNum 4 -> get_id m5 = PNum 5 ->
      let w1 := exec (SseChannel.send m1 None) w in
      let w2 := exec (SseChannel.send m2 None) w1 in
      let w3 := exec (SseChannel.send m3 None) w2 in
      let w4 := exec (SseChannel.send m4 None) w3 in
      let w5 := exec (SseChannel.send m5 None) w4 in
      SseChannel.sendMissedEvents response (PNum 3) w5
      = (Normal tt,
         mkWorld (this w5)
           (log w5 ++ [Write response (frame_of (this w) m4);
                       Write response (frame_of (this w) m5)]))).
Proof.
  split; [|split].
  - intros w response lastId n Hnum Hsorted.
    rewrite SseChannel_sendMissedEvents_run.
    now rewrite (missed_loop_missed_since _ _ n Hnum Hsorted).
  - intros w response lastId n Hnum Hsorted.
    rewrite LibSseChannel_sendMissedEvents_run.
    now rewrite (missed_loop_missed_since _ _ n Hnum Hsorted).
  - intros w m1 m2 m3 m4 m5 response Hempty Hsize Hid1 Hid2 Hid3 Hid4 Hid5
           w1 w2 w3 w4 w5.
    pose (e := entry_of (this w)).
    assert (H1 : this w1 = SseChannel.set_history [e m1] (this w)).
    { subst w1 e. publish_fresh Hempty. }
    assert (H2 : this w2 = SseChannel.set_history [e m2; e m1] (this w)).
    { subst w2 e. publish_fresh H1. }
    assert (H3 : this w3
                 = SseChannel.set_history [e m3; e m2; e m1] (this w)).
    { subst w3 e. publish_fresh H2. }
    assert (H4 : this w4
                 = SseChannel.set_history [e m4; e m3; e m2; e m1] (this w)).
    { subst w4 e. publish_fresh H3. }
    assert (H5 : this w5
                 = SseChannel.set_history
                     [e m5; e m4; e m3; e m2; e m1] (this w)).
    { subst w5 e. publish_fresh H4. }
    rewrite SseChannel_sendMissedEvents_run. rewrite H5.
    cbn [SseChannel.history SseChannel.set_history missed_loop].
    subst e. cbn [entry_id entry_msg entry_of].
    rewrite Hid5, Hid4, Hid3. reflexivity.
Qed.

(** C3, at an instance: a history holding the ids 5, 4, 3, 3, 1, most recent
    first, replayed from the [lastId] 3 as a header gives it, a string. *)
Lemma C3_sendMissedEvents_replays_newer_witness :
  let entry (n : Z) (frame : string) :=
    {| entry_id := PNum n; entry_msg := frame |} in
  let w :=
    mkWorld
      (SseChannel.set_history
         [entry 5 "e"; entry 4 "d"; entry 3 "c"; entry 3 "b"; entry 1 "a"]
         (SseChannel.new open_options)) [] in
  ToNumber (PStr "3") = Some 3 /\
  newest_first (SseChannel.history (this w)) = true /\
  log (exec (SseChannel.sendMissedEvents 7%nat (PStr "3")) w)
  = [Write 7%nat "d"; Write 7%nat "e"].
Proof.
  cbv zeta. split; [reflexivity|]. split; [reflexivity|].
  match goal with
  | |- log (exec (SseChannel.sendMissedEvents _ _) ?w) = _ =>
      unfold exec;
      rewrite (proj1 C3_sendMissedEvents_replays_newer w 7%nat (PStr "3") 3
                 eq_refl eq_refl)
  end.
  reflexivity.
Defined.

(** The same through [addClient]: after the ids 1 to 5 were published, a
    client that connects with the header [last-event-id: 3] is written the
    handshake, then the frames of the ids 4 and 5, in that order. *)
Lemma addClient_resumes_after_3 :
  let publish (n : Z) :=
    SseChannel.send
      (MObject (text_message PUndefined PUndefined (PNum n) "x")) None in
  let w5 :=
    exec (publish 5)
      (exec (publish 4)
         (exec (publish 3)
            (exec (publish 2)
               (exec (publish 1)
                  (mkWorld (SseChannel.new open_options) []))))) in
  let req :=
    {| req_ref := 0;
       header_last_event_id := PStr "3";
       query_evs_preamble := PUndefined;
       query_evs_last_event_id := PUndefined;
       query_lastEventId := PUndefined |} in
  written 9%nat (log (exec (SseChannel.addClient req 9%nat false) w5))
  = [":ok" ++ NLNL;
     "id: 4" ++ NL ++ "data: x" ++ NLNL;
     "id: 5" ++ NL ++ "data: x" ++ NLNL].
Proof. vm_compute. reflexivity. Qed.

(* ================================================================== *)
(** * Connecting *)

(** C9.  On the channel of version 1.0.4, when the access-control check
    deals with the request itself and leaves status 403 on the response,
    [addClient] completes having done one thing only: it calls the callback,
    if one was given, with the error ['cors failure'].  The channel (registry,
    count, history) is as it was, nothing is written to any response, no
    listener is registered and no event is emitted. *)
Theorem C9_addClient_rejected :
  forall (w : World SseChannel.Channel) (req : Request) (res : conn)
         (callback : bool),
    SseChannel.cors (this w) req = CorsHandled 403 ->
    let w' := exec (SseChannel.addClient req res callback) w in
    outcome (SseChannel.addClient req res callback) w = Normal tt /\
    this w' = this w /\
    SseChannel.connections (this w') = SseChannel.connections (this w) /\
    SseChannel.connectionCount (this w')
    = SseChannel.connectionCount (this w) /\
    log w'
    = (log w ++ if callback then [Callback (PStr "cors failure")] else [])%list /\
    (forall c, written c (log w') = written c (log w)) /\
    (forall e, In (Emit e) (log w') -> In (Emit e) (log w)).
Proof.
  intros w req res callback Hcors w'. subst w'. unfold exec, outcome.
  unfold SseChannel.addClient, bind, get_this. rewrite Hcors.
  destruct callback; cbn [when perform ret fst snd this log Z.eqb Pos.eqb].
  - repeat split.
    + intros c. rewrite written_app. cbn. now rewrite app_nil_r.
    + intros e Hin. apply in_app_or in Hin as [Hin|Hin]; [exact Hin|].
      destruct Hin as [Hin|[]]. discriminate Hin.
  - rewrite app_nil_r. repeat split. intros e Hin. exact Hin.
Qed.

(** C9, at an instance: a channel whose access control turns every request
    down. *)
Lemma C9_addClient_rejected_witness :
  let closed :=
    {| SseChannel.opts_cors := fun _ => CorsHandled 403;
       SseChannel.opts_name := PUndefined;
       SseChannel.opts_history := None;
       SseChannel.opts_historySize := None;
       SseChannel.opts_retryTimeout := PUndefined;
       SseChannel.opts_pingInterval := PUndefined;
       SseChannel.opts_jsonEncode := PUndefined |} in
  let w := mkWorld (SseChannel.new closed) [] in
  SseChannel.cors (this w) (plain_request 0) = CorsHandled 403 /\
  exec (SseChannel.addClient (plain_request 0) 1%nat true) w
  = mkWorld (this w) [Callback (PStr "cors failure")].
Proof.
  cbv zeta. split; [reflexivity|].
  match goal with
  | |- exec (SseChannel.addClient ?r ?c ?cb) ?w = _ =>
      destruct (C9_addClient_rejected w r c cb eq_refl)
        as (_ & Hthis & _ & _ & Hlog & _)
  end.
  destruct (exec _ _) as [ch l]. cbn [this log] in Hthis, Hlog.
  now rewrite Hthis, Hlog.
Defined.

(* ================================================================== *)
(** * More on the frame formatter *)

Lemma has_char_append (c : ascii) (s t : string) :
  has_char c (s ++ t) = has_char c s || has_char c t.
Proof.
  induction s as [|c' s IH]; cbn [append has_char]; [reflexivity|].
  now rewrite IH, orb_assoc.
Qed.








Lemma parseTextData_string_ends_blank (text : string) :
  exists body, parseTextData_string text = body ++ NLNL.
Proof.
  rewrite parseTextData_string_data_lines.
  pose proof (split_LF_not_nil (replace_newlines text)) as Hne.
  induction (split_LF (replace_newlines text)) as [|l rest IH];
    [contradiction|].
  rewrite data_lines_cons. destruct rest as [|l' rest'].
  - exists ("data: " ++ l). change (data_lines []) with "".
    rewrite !append_assoc. reflexivity.
  - destruct IH as [body Hbody]; [discriminate|].
    exists (("data: " ++ l ++ NL) ++ body).
    rewrite !append_assoc. now rewrite Hbody.
Qed.






(** ** JSON text is one line *)

Lemma one_line_append (s t : string) :
  one_line (s ++ t) = one_line s && one_line t.
Proof.
  unfold one_line. rewrite !has_char_append.
  destruct (has_char CR s), (has_char LF s), (has_char CR t),
    (has_char LF t); reflexivity.
Qed.

Lemma one_line_String (c : ascii) (s : string) :
  one_line (String c s) = one_line (str1 c) && one_line s.
Proof. apply (one_line_append (str1 c) s). Qed.

Lemma JSON_escape_one_line (c : ascii) : one_line (JSON_escape c) = true.
Proof.
  destruct c as [[|] [|] [|] [|] [|] [|] [|] [|]]; reflexivity.
Qed.

Lemma JSON_quote_one_line (s : string) : one_line (JSON_quote s) = true.
Proof.
  unfold JSON_quote. rewrite one_line_String, one_line_append.
  assert (H : one_line (JSON_escape_all s) = true).
  { induction s as [|c s IH]; [reflexivity|].
    cbn [JSON_escape_all]. now rewrite one_line_append, JSON_escape_one_line. }
  now rewrite H.
Qed.

Lemma string_of_uint_one_line (d : Decimal.uint) :
  one_line (NilEmpty.string_of_uint d) = true.
Proof.
  induction d; cbn [NilEmpty.string_of_uint]; [reflexivity|..];
    rewrite one_line_String, IHd; reflexivity.
Qed.

Lemma Number_toString_one_line (n : Z) : one_line (Number_toString n) = true.
Proof.
  unfold Number_toString, NilZero.string_of_int, NilZero.string_of_uint.
  destruct (Z.to_int n) as [d|d]; destruct d;
    try reflexivity;
    try (rewrite one_line_String); rewrite ?string_of_uint_one_line;
    try reflexivity;
    rewrite one_line_String, string_of_uint_one_line; reflexivity.
Qed.

Lemma one_line_concat (sep : string) (l : list string) :
  one_line sep = true ->
  Forall (fun s => one_line s = true) l ->
  one_line (String.concat sep l) = true.
Proof.
  intros Hsep Hall. induction Hall as [|s l Hs Hl IH]; [reflexivity|].
  destruct l as [|s' l']; [exact Hs|].
  change (String.concat sep (s :: s' :: l'))
    with (s ++ sep ++ String.concat sep (s' :: l')).
  now rewrite !one_line_append, Hs, Hsep, IH.
Qed.

(** The JSON text of a value holds no line terminator. *)
Lemma JSON_stringify_one_line (v : JsVal) :
  forall json, JSON_stringify v = Some json -> one_line json = true.
Proof.
  induction v as [p|elems IH|props IH] using JsVal_induction;
    intros json Hjson.
  - destruct p as [| |[|]|n|s]; cbn [JSON_stringify] in Hjson;
      try discriminate; injection Hjson as <-; try reflexivity.
    + apply Number_toString_one_line.
    + apply JSON_quote_one_line.
  - cbn [JSON_stringify] in Hjson. injection Hjson as <-.
    rewrite one_line_String, one_line_append.
    rewrite one_line_concat; [reflexivity | reflexivity |].
    apply Forall_map. apply Forall_impl with (2 := IH).
    intros e He. destruct (JSON_stringify e) as [s|]; [now apply He|reflexivity].
  - cbn [JSON_stringify] in Hjson. injection Hjson as <-.
    rewrite one_line_String, one_line_append.
    rewrite one_line_concat; [reflexivity | reflexivity |].
    induction IH as [|[k x] rest Hx Hrest IHrest]; [constructor|].
    cbn [flat_map]. cbn [snd] in Hx.
    destruct (JSON_stringify x) as [s|]; [|exact IHrest].
    cbn [app]. constructor; [|exact IHrest].
    change (one_line (JSON_quote k ++ ":" ++ s) = true).
    now rewrite !one_line_append, JSON_quote_one_line, (Hx s eq_refl).
Qed.

Lemma replace_newlines_no_CR_id (s : string) :
  has_char CR s = false -> replace_newlines s = s.
Proof.
  induction s as [|c s IH]; [reflexivity|]. cbn [has_char]. intros H.
  apply orb_false_iff in H as [Hc Hs].
  cbn [replace_newlines]. rewrite Hc. now rewrite IH.
Qed.

Lemma split_LF_no_LF (s : string) :
  has_char LF s = false -> split_LF s = [s].
Proof.
  induction s as [|c s IH]; [reflexivity|]. cbn [has_char]. intros H.
  apply orb_false_iff in H as [Hc Hs].
  cbn [split_LF]. rewrite Hc. now rewrite IH.
Qed.

(** A text of one line is sent as one [data:] line. *)
Lemma parseTextData_string_one_line (s : string) :
  one_line s = true -> parseTextData_string s = "data: " ++ s ++ NLNL.
Proof.
  unfold one_line. intros H. apply andb_true_iff in H as [HCR HLF].
  apply negb_true_iff in HCR, HLF.
  rewrite parseTextData_string_data_lines.
  rewrite (replace_newlines_no_CR_id s HCR), (split_LF_no_LF s HLF).
  unfold data_lines. cbn [map String.concat].
  rewrite !append_assoc. reflexivity.
Qed.

(** X2.  With [jsonEncode] on, the data block of the channel of version
    1.0.4 is always exactly one [data:] line, holding the JSON text of the
    payload (of [''] for a falsy payload), whatever line terminators the
    payload holds: they are escaped by the serialization. *)
Theorem jsonEncode_single_data_line :
  forall m : MsgObject,
    exists json,
      JSON_stringify (js_or (msg_data m) (PStr "")) = Some json /\
      one_line json = true /\
      SseChannel.parseMessage (MObject m) true
      = header_lines m ++ "data: " ++ json ++ NLNL.
Proof.
  intros m. rewrite SseChannel_parseMessage_object.
  unfold JSON_stringify_val, SseChannel.parseTextData.
  destruct (JSON_stringify (js_or (msg_data m) (PStr ""))) as [json|] eqn:E.
  - exists json. split; [reflexivity|].
    pose proof (JSON_stringify_one_line _ json E) as Hone.
    split; [exact Hone|].
    cbn [ToString prim_ToString].
    now rewrite (parseTextData_string_one_line json Hone).
  - exfalso. unfold js_or, truthy, prim_truthy in E.
    destruct (msg_data m) as [[| |[|]|n|s]|elems|props];
      try destruct (n =? 0); try destruct (String.eqb s "");
      cbn [negb JSON_stringify] in E; discriminate.
Qed.

(** ** The data block determines the payload *)

Lemma line_split_unique (l1 l2 r1 r2 : string) :
  has_char LF l1 = false ->
  has_char LF l2 = false ->
  l1 ++ String LF r1 = l2 ++ String LF r2 ->
  l1 = l2 /\ r1 = r2.
Proof.
  revert l2. induction l1 as [|c l1 IH]; intros [|c' l2] H1 H2 E;
    cbn [append has_char] in *.
  - injection E as E. now split.
  - injection E as Ec _. subst c'. discriminate H2.
  - injection E as Ec _. subst c. discriminate H1.
  - injection E as Ec E. subst c'.
    apply orb_false_iff in H1 as [_ H1]. apply orb_false_iff in H2 as [_ H2].
    destruct (IH l2 H1 H2 E) as [-> ->]. now split.
Qed.

Lemma data_lines_injective (lines1 : list string) :
  forall lines2 : list string,
    (forall l, In l lines1 -> has_char LF l = false) ->
    (forall l, In l lines2 -> has_char LF l = false) ->
    data_lines lines1 ++ NL = data_lines lines2 ++ NL ->
    lines1 = lines2.
Proof.
  induction lines1 as [|l1 rest1 IH]; intros [|l2 rest2] H1 H2 E.
  - reflexivity.
  - rewrite data_lines_cons in E. discriminate E.
  - rewrite data_lines_cons in E. discriminate E.
  - rewrite !data_lines_cons, !append_assoc in E.
    cbn [append] in E. injection E as E.
    change (NL ++ ?x) with (String LF x) in E.
    apply line_split_unique in E as [-> E];
      [|apply H1; now left | apply H2; now left].
    f_equal. apply IH; [..|exact E].
    + intros l Hl. apply H1. now right.
    + intros l Hl. apply H2. now right.
Qed.

(** X3.  Two payloads are sent as the same data block exactly when they are
    the same text up to the convention for line endings (CR LF, CR or LF):
    the data block loses nothing else of the payload. *)
Theorem data_block_determines_payload :
  forall s t : string,
    SseChannel.parseTextData (PStr s) = SseChannel.parseTextData (PStr t)
    <-> replace_newlines s = replace_newlines t.
Proof.
  intros s t. unfold SseChannel.parseTextData. cbn [ToString prim_ToString].
  split.
  - rewrite !parseTextData_string_data_lines. intros E.
    apply data_lines_injective in E.
    + rewrite <- (concat_split_LF (replace_newlines s)),
        <- (concat_split_LF (replace_newlines t)).
      now rewrite E.
    + intros l Hl. now apply (split_LF_pieces _ _ Hl).
    + intros l Hl. now apply (split_LF_pieces _ _ Hl).
  - intros E. unfold parseTextData_string. now rewrite E.
Qed.

(** ** Payloads that are not strings *)

(** X4.  The formatter of version 1.0.4 replaces a falsy payload by the
    empty string before anything else: the payloads [0], [false], [null],
    [undefined] and [''] are all sent as an empty [data:] line, or as the
    JSON text of the empty string when [jsonEncode] is on. *)
Theorem falsy_payload_sent_empty :
  forall m : MsgObject,
    truthy (msg_data m) = false ->
    SseChannel.parseMessage (MObject m) false
    = header_lines m ++ "data: " ++ NLNL /\
    SseChannel.parseMessage (MObject m) true
    = header_lines m ++ "data: " ++ String DQUOTE (str1 DQUOTE) ++ NLNL.
Proof.
  intros m Hfalsy. rewrite !SseChannel_parseMessage_object.
  unfold js_or. rewrite Hfalsy. split; reflexivity.
Qed.

(** X4, at an instance: the payload [0]. *)
Lemma falsy_payload_sent_empty_witness :
  let m := {| msg_event := PUndefined; msg_retry := PUndefined;
              msg_id := PNum 4; msg_data := JPrim (PNum 0) |} in
  truthy (msg_data m) = false /\
  SseChannel.parseMessage (MObject m) false
  = "id: 4" ++ NL ++ "data: " ++ NLNL.
Proof.
  cbv zeta. split; [reflexivity|].
  match goal with
  | |- SseChannel.parseMessage (MObject ?m) false = _ =>
      rewrite (proj1 (falsy_payload_sent_empty m eq_refl))
  end.
  reflexivity.
Defined.

Lemma JSON_stringify_None (v : JsVal) :
  JSON_stringify v = None <-> v = JPrim PUndefined.
Proof.
  split; [|intros ->; reflexivity].
  destruct v as [[| |[|]|n|s]|elems|props]; cbn [JSON_stringify];
    intros H; try discriminate; reflexivity.
Qed.

(** X5.  When the formatter of [lib/sse-channel.js] throws on a message
    object: with [autoSerialize] on, exactly when the payload is
    [undefined]; with [autoSerialize] off, exactly when the payload is
    truthy and not a string.  The error is a TypeError, raised by
    [text.replace]. *)
Theorem LibSseChannel_parseMessage_throws :
  forall (m : MsgObject) (autoSerialize : bool),
    (LibSseChannel.parseMessage (MObject m) autoSerialize = Throw TypeError
     <-> if autoSerialize
         then msg_data m = JPrim PUndefined
         else truthy (msg_data m) = true
              /\ LibSseChannel.isString (msg_data m) = false) /\
    (forall e, LibSseChannel.parseMessage (MObject m) autoSerialize = Throw e
               -> e = TypeError).
Proof.
  intros m autoSerialize. rewrite LibSseChannel_parseMessage_object.
  split.
  - destruct autoSerialize; cbn [andb].
    + destruct (msg_data m) as [[| |[|]|n|s]|elems|props];
        cbn [LibSseChannel.isString negb JSON_stringify_val JSON_stringify
             LibSseChannel.parseTextData];
        try (split; [discriminate | discriminate]);
        try (split; reflexivity).
      rewrite js_or_string. cbn [LibSseChannel.parseTextData].
      split; discriminate.
    + unfold js_or.
      destruct (msg_data m) as [[| |[|]|n|s]|elems|props];
        cbn [truthy prim_truthy LibSseChannel.isString
             LibSseChannel.parseTextData];
        try (split; [discriminate | intros [H1 H2]; discriminate]);
        try (split; [intros _; split; reflexivity | reflexivity]).
      * destruct (n =? 0); cbn [negb LibSseChannel.parseTextData];
          [split; [discriminate | intros [H1 H2]; discriminate]
          |split; [intros _; split; reflexivity | reflexivity]].
      * destruct (String.eqb s ""); cbn [negb LibSseChannel.parseTextData];
          split; try discriminate; intros [H1 H2]; discriminate.
  - intros e. destruct (LibSseChannel.parseTextData _) as [block|e'];
      [discriminate|]. destruct e, e'. reflexivity.
Qed.

(** X6.  Where the two formatters agree on message objects: on a string
    payload, that of [lib/sse-channel.js], whatever its flag, gives the frame
    that of version 1.0.4 gives with [jsonEncode] off; on a truthy payload
    that is not a string, both give the same frame when their flags are
    on. *)
Theorem formatters_agree :
  forall m : MsgObject,
    (LibSseChannel.isString (msg_data m) = true ->
     forall autoSerialize : bool,
       LibSseChannel.parseMessage (MObject m) autoSerialize
       = Normal (SseChannel.parseMessage (MObject m) false)) /\
    (LibSseChannel.isString (msg_data m) = false ->
     truthy (msg_data m) = true ->
     LibSseChannel.parseMessage (MObject m) true
     = Normal (SseChannel.parseMessage (MObject m) true)).
Proof.
  intros m. split.
  - intros Hstr autoSerialize.
    rewrite LibSseChannel_parseMessage_object, SseChannel_parseMessage_object.
    rewrite Hstr, andb_false_r.
    destruct (msg_data m) as [[| |b|n|s]|elems|props]; try discriminate.
    rewrite js_or_string. reflexivity.
  - intros Hstr Htruthy.
    rewrite LibSseChannel_parseMessage_object, SseChannel_parseMessage_object.
    rewrite Hstr. cbn [andb negb]. unfold js_or. rewrite Htruthy.
    unfold JSON_stringify_val, SseChannel.parseTextData.
    destruct (JSON_stringify (msg_data m)) as [json|] eqn:E; [reflexivity|].
    apply JSON_stringify_None in E. rewrite E in Htruthy. discriminate.
Qed.

(** X6, at an instance: a string payload, and an object payload. *)
Lemma formatters_agree_witness :
  let text := text_message (PStr "tick") PUndefined (PNum 1) "x" in
  let object :=
    {| msg_event := PUndefined; msg_retry := PUndefined; msg_id := PNum 2;
       msg_data := JObj [("a", JPrim (PNum 1))] |} in
  LibSseChannel.parseMessage (MObject text) true
  = Normal (SseChannel.parseMessage (MObject text) false) /\
  LibSseChannel.parseMessage (MObject object) true
  = Normal (SseChannel.parseMessage (MObject object) true).
Proof.
  cbv zeta. split.
  - match goal with
    | |- LibSseChannel.parseMessage (MObject ?m) _ = _ =>
        exact (proj1 (formatters_agree m) eq_refl true)
    end.
  - match goal with
    | |- LibSseChannel.parseMessage (MObject ?m) _ = _ =>
        exact (proj2 (formatters_agree m) eq_refl eq_refl)
    end.
Defined.

(* ================================================================== *)
(** * Connecting and disconnecting *)

(** The effects of a handshake, as the chunks it writes and the rest. *)
Lemma initializeConnection_with_run {C : Type} (timeout : string)
    (retryLine : Z -> string) (req : Request) (res : conn)
    (opts_retry opts_preamble : Prim) (w : World C) :
  initializeConnection_with timeout retryLine req res opts_retry opts_preamble w
  = (Normal tt,
     mkWorld (this w)
       (log w
        ++ [Socket (req_ref req) ("setTimeout(" ++ timeout ++ ")");
            Socket (req_ref req) "setNoDelay(true)";
            Socket (req_ref req) "setKeepAlive(true)";
            WriteHead res 200
              [("Content-Type", "text/event-stream");
               ("Cache-Control", "no-cache");
               ("Connection", "keep-alive")]]
        ++ map (fun chunk => Write res chunk)
               (handshake_chunks retryLine opts_retry opts_preamble))).
Proof.
  unfold initializeConnection_with, handshake_chunks, bind, perform, when.
  cbn [this log].
  destruct (bitor_zero opts_retry =? 0), (prim_truthy opts_preamble);
    cbn [negb ret this log map app];
    rewrite <- ?app_assoc; reflexivity.
Qed.

Lemma written_other (c : conn) (res : conn) (l : list string) :
  c <> res -> written c (map (fun chunk => Write res chunk) l) = [].
Proof.
  intros Hne. induction l as [|x l IH]; [reflexivity|].
  cbn [map written flat_map]. fold (written c (map (fun chunk => Write res chunk) l)).
  rewrite IH. destruct (Nat.eqb_spec res c); [congruence | reflexivity].
Qed.

Lemma written_same (res : conn) (l : list string) :
  written res (map (fun chunk => Write res chunk) l) = l.
Proof.
  induction l as [|x l IH]; [reflexivity|].
  cbn [map written flat_map]. fold (written res (map (fun chunk => Write res chunk) l)).
  now rewrite IH, Nat.eqb_refl.
Qed.

Lemma ToInt32_range (n : Z) : - 2 ^ 31 <= ToInt32 n < 2 ^ 31.
Proof.
  unfold ToInt32.
  pose proof (Z.mod_pos_bound (n + 2 ^ 31) (2 ^ 32) eq_refl) as H.
  change (2 ^ 32) with (2 * 2 ^ 31) in *. lia.
Qed.

Lemma bitor_zero_range (p : Prim) : - 2 ^ 31 <= bitor_zero p < 2 ^ 31.
Proof.
  unfold bitor_zero. destruct (ToNumber p); [apply ToInt32_range|].
  split; [discriminate | reflexivity].
Qed.

Lemma preamble_chunk_length : String.length (":" ++ preambleData) = 2058%nat.
Proof. vm_compute. reflexivity. Qed.

Lemma ends_with_LF_append (s t : string) :
  ends_with_LF t = true -> ends_with_LF (s ++ t) = true.
Proof.
  intros Ht. induction s as [|c s IH]; [exact Ht|].
  cbn [append ends_with_LF]. destruct (s ++ t) eqn:E; [|exact IH].
  destruct s; [|discriminate]. cbn [append] in E. subst t. discriminate.
Qed.

(** X7.  The handshake of version 1.0.4 completes, leaves the channel as it
    is, and writes to the response, and to it only: [:ok] and a blank line;
    then a retry line if and only if the retry time, wrapped to a 32-bit
    integer, is not zero, with that integer as the time; then, if the
    preamble is asked for, a comment of 2058 bytes.  Every chunk ends with a
    line feed. *)
Theorem handshake_chunks_written :
  forall (req : Request) (res : conn) (opts_retry opts_preamble : Prim)
         (w : World SseChannel.Channel),
    let m := SseChannel.initializeConnection req res opts_retry opts_preamble in
    let retry := bitor_zero opts_retry in
    let sent :=
      ([(":ok" ++ NLNL)%string]
       ++ (if retry =? 0 then []
           else [("retry: " ++ Number_toString retry ++ NL)%string])
       ++ (if prim_truthy opts_preamble
           then [(":" ++ preambleData)%string] else []))%list in
    outcome m w = Normal tt /\
    this (exec m w) = this w /\
    written res (log (exec m w)) = (written res (log w) ++ sent)%list /\
    (forall c, c <> res -> written c (log (exec m w)) = written c (log w)) /\
    - 2 ^ 31 <= retry < 2 ^ 31 /\
    Forall (fun chunk => ends_with_LF chunk = true) sent /\
    String.length (":" ++ preambleData) = 2058%nat.
Proof.
  intros req res opts_retry opts_preamble w m retry sent.
  subst m. unfold exec, outcome, SseChannel.initializeConnection.
  rewrite initializeConnection_with_run. cbn [fst snd this log].
  split; [reflexivity|]. split; [reflexivity|].
  split; [|split; [|split; [|split]]].
  - rewrite !written_app, written_same.
    match goal with
    | |- context [written ?c (Socket ?a ?b :: ?t)] =>
        change (written c (Socket a b :: t)) with (@nil string)
    end.
    reflexivity.
  - intros c Hc. rewrite !written_app, (written_other c res _ Hc).
    match goal with
    | |- context [written ?c (Socket ?a ?b :: ?t)] =>
        change (written c (Socket a b :: t)) with (@nil string)
    end.
    now rewrite !app_nil_r.
  - apply bitor_zero_range.
  - subst sent. repeat (apply Forall_app; split).
    + repeat constructor.
    + destruct (retry =? 0); repeat constructor.
      rewrite <- append_assoc. now apply ends_with_LF_append.
    + destruct (prim_truthy opts_preamble); repeat constructor.
  - apply preamble_chunk_length.
Qed.

(** The id [addClient] resumes from is the first truthy one. *)
Lemma lastEventId_resume_id (req : Request) :
  let lastEventId :=
    prim_or (prim_or (prim_or (header_last_event_id req)
                              (query_evs_last_event_id req))
                     (query_lastEventId req))
            (PNum 0) in
  match resume_id req with
  | Some id => lastEventId = id /\ prim_truthy lastEventId = true
  | None => prim_truthy lastEventId = false
  end.
Proof.
  unfold resume_id, prim_or.
  destruct (prim_truthy (header_last_event_id req)) eqn:H1; cbn zeta.
  - rewrite H1, H1. now split.
  - destruct (prim_truthy (query_evs_last_event_id req)) eqn:H2.
    + rewrite H2, H2. now split.
    + destruct (prim_truthy (query_lastEventId req)) eqn:H3.
      * rewrite H3. now split.
      * reflexivity.
Qed.

(** An accepted connect, in full. *)
Lemma addClient_accepted_run (req : Request) (res : conn) (callback : bool)
    (w : World SseChannel.Channel) :
  SseChannel.cors (this w) req = CorsPass ->
  SseChannel.addClient req res callback w
  = (Normal tt,
     mkWorld
       (SseChannel.set_connectionCount
          (SseChannel.connectionCount (this w) + 1)
          (SseChannel.set_connections
             (SseChannel.connections (this w) ++ [res]) (this w)))
       (log w
        ++ [Socket (req_ref req) "setTimeout(0)";
            Socket (req_ref req) "setNoDelay(true)";
            Socket (req_ref req) "setKeepAlive(true)";
            WriteHead res 200
              [("Content-Type", "text/event-stream");
               ("Cache-Control", "no-cache");
               ("Connection", "keep-alive")]]
        ++ map (fun chunk => Write res chunk)
               (handshake_chunks
                  (fun retry => "retry: " ++ Number_toString retry ++ NL)
                  (SseChannel.retryTimeout (this w))
                  (query_evs_preamble req))
        ++ [On (OfRequest (req_ref req)) "close" (RemoveClient res);
            On (OfRequest (req_ref req)) "end" (RemoveClient res);
            On (OfResponse res) "finish" (RemoveClient res)]
        ++ map (fun chunk => Write res chunk)
               (replayed (SseChannel.history (this w)) req)
        ++ [Emit (EvConnect (req_ref req) res)]
        ++ (if callback then [Callback PUndefined] else []))).
Proof.
  intros Hcors.
  unfold SseChannel.addClient. unfold bind at 1. unfold get_this at 1.
  rewrite Hcors.
  unfold bind, SseChannel.initializeConnection.
  rewrite initializeConnection_with_run.
  unfold modify, perform. cbn [this log].
  pose proof (lastEventId_resume_id req) as Hid. cbv zeta in Hid.
  unfold replayed.
  destruct (resume_id req) as [id|].
  - destruct Hid as [-> Htruthy]. unfold when at 1. rewrite Htruthy.
    rewrite SseChannel_sendMissedEvents_run.
    cbn [this log SseChannel.history SseChannel.set_connectionCount
         SseChannel.set_connections].
    destruct callback; cbn [when ret this log];
      rewrite <- ?app_assoc; cbn [app]; rewrite ?app_nil_r; reflexivity.
  - unfold when at 1. rewrite Hid. cbn [ret this log map].
    destruct callback; cbn [when ret this log];
      rewrite <- ?app_assoc; cbn [app]; rewrite ?app_nil_r; reflexivity.
Qed.




Lemma pull_app_fresh (cs : list conn) (res : conn) :
  ~ In res cs -> pull (cs ++ [res]) res = cs.
Proof.
  intros H. unfold pull. rewrite filter_app. cbn [filter].
  rewrite Nat.eqb_refl. cbn [negb]. rewrite app_nil_r.
  now apply pull_absent.
Qed.

Lemma SseChannel_eta (ch : SseChannel.Channel) :
  SseChannel.set_connectionCount (SseChannel.connectionCount ch)
    (SseChannel.set_connections (SseChannel.connections ch) ch) = ch.
Proof. destruct ch; reflexivity. Qed.

(** X9.  Connecting a response that is not registered yet and then removing
    it gives back the channel as it was before: same registry, same count,
    same history. *)
Theorem addClient_removeClient_restores :
  forall (req : Request) (res : conn) (callback : bool)
         (w : World SseChannel.Channel),
    SseChannel.cors (this w) req = CorsPass ->
    ~ In res (SseChannel.connections (this w)) ->
    this (exec (SseChannel.removeClient res)
               (exec (SseChannel.addClient req res callback) w))
    = this w.
Proof.
  intros req res callback w Hcors Hfresh. unfold exec.
  rewrite (addClient_accepted_run req res callback w Hcors).
  cbn [snd]. rewrite SseChannel_removeClient_run.
  cbn [snd this SseChannel.connections SseChannel.connectionCount
       SseChannel.set_connections SseChannel.set_connectionCount].
  rewrite (pull_app_fresh _ _ Hfresh).
  replace (SseChannel.connectionCount (this w) + 1 - 1)
    with (SseChannel.connectionCount (this w)) by lia.
  destruct (this w); reflexivity.
Qed.

(** X9, at an instance: a second client comes and goes. *)
Lemma addClient_removeClient_restores_witness :
  let w := mkWorld (SseChannel.set_connectionCount 1
                      (SseChannel.set_connections [1%nat]
                         (SseChannel.new open_options))) [] in
  SseChannel.cors (this w) (plain_request 0) = CorsPass /\
  ~ In 2%nat (SseChannel.connections (this w)) /\
  this (exec (SseChannel.removeClient 2%nat)
             (exec (SseChannel.addClient (plain_request 0) 2%nat false) w))
  = this w.
Proof.
  cbv zeta. split; [reflexivity|].
  assert (Hfresh : ~ In 2%nat [1%nat])
    by (intros [H|[]]; discriminate H).
  split; [exact Hfresh|].
  match goal with
  | |- this (exec _ (exec _ ?w)) = _ =>
      exact (addClient_removeClient_restores (plain_request 0) 2%nat false
               w eq_refl Hfresh)
  end.
Defined.

Lemma length_pull (cs : list conn) (res : conn) :
  (List.length (pull cs res) + count_occ Nat.eq_dec cs res
   = List.length cs)%nat.
Proof.
  unfold pull. induction cs as [|c cs IH]; [reflexivity|].
  cbn [filter count_occ List.length].
  destruct (Nat.eq_dec c res) as [->|Hne].
  - rewrite Nat.eqb_refl. cbn [negb]. lia.
  - apply Nat.eqb_neq in Hne. rewrite Hne. cbn [negb List.length]. lia.
Qed.

(** X10.  What [removeClient] does to the registry and to the count, in
    every state: every occurrence of the response leaves the registry, the
    count goes down by one.  So the count stays equal to the size of the
    registry exactly when the response was registered once; it falls below
    it when the response was not registered, and stays above it when the
    response was registered more than once. *)
Theorem removeClient_count_and_registry :
  forall (res : conn) (w : World SseChannel.Channel),
    let w' := exec (SseChannel.removeClient res) w in
    let occurrences :=
      Z.of_nat (count_occ Nat.eq_dec (SseChannel.connections (this w)) res) in
    outcome (SseChannel.removeClient res) w = Normal tt /\
    ~ In res (SseChannel.connections (this w')) /\
    (forall c, c <> res ->
       count_occ Nat.eq_dec (SseChannel.connections (this w')) c
       = count_occ Nat.eq_dec (SseChannel.connections (this w)) c) /\
    Z.of_nat (List.length (SseChannel.connections (this w')))
    = Z.of_nat (List.length (SseChannel.connections (this w))) - occurrences /\
    SseChannel.connectionCount (this w')
    = SseChannel.connectionCount (this w) - 1 /\
    SseChannel.connectionCount (this w')
    - Z.of_nat (List.length (SseChannel.connections (this w')))
    = SseChannel.connectionCount (this w)
      - Z.of_nat (List.length (SseChannel.connections (this w)))
      + (occurrences - 1) /\
    log w' = (log w ++ [Emit (EvDisconnect res)])%list.
Proof.
  intros res w w' occurrences. subst w' occurrences. unfold exec, outcome.
  rewrite SseChannel_removeClient_run.
  cbn [fst snd this log SseChannel.connections SseChannel.connectionCount
       SseChannel.set_connections SseChannel.set_connectionCount].
  pose proof (length_pull (SseChannel.connections (this w)) res) as Hlen.
  split; [reflexivity|]. split; [apply pull_not_In|].
  split; [|repeat split; lia].
  intros c Hc. unfold pull.
  induction (SseChannel.connections (this w)) as [|x cs IH]; [reflexivity|].
  cbn [filter count_occ].
  destruct (Nat.eqb_spec x res) as [->|Hx]; cbn [negb].
  - destruct (Nat.eq_dec res c); [congruence|]. apply IH. 
    pose proof (length_pull cs res). lia.
  - cbn [count_occ]. destruct (Nat.eq_dec x c); [f_equal|]; apply IH;
      pose proof (length_pull cs res); lia.
Qed.

(** X11.  The handshake of [lib/sse-channel.js] writes its retry line, when
    it writes one, as [retry:] and the time with no line feed at all: the
    line is left open, and whatever is written to the response next
    continues it. *)
Theorem LibSseChannel_handshake_retry_unterminated :
  forall (req : Request) (res : conn) (opts_retry opts_preamble : Prim)
         (w : World LibSseChannel.Channel),
    bitor_zero opts_retry <> 0 ->
    let m := LibSseChannel.initializeConnection req res opts_retry
               opts_preamble in
    let line := "retry:" ++ Number_toString (bitor_zero opts_retry) in
    written res (log (exec m w))
    = (written res (log w)
       ++ [(":ok" ++ NLNL)%string; line]
       ++ (if prim_truthy opts_preamble
           then [(":" ++ preambleData)%string] else []))%list /\
    has_char LF line = false.
Proof.
  intros req res opts_retry opts_preamble w Hretry m line. subst m line.
  unfold exec, LibSseChannel.initializeConnection.
  rewrite initializeConnection_with_run. cbn [snd log].
  split.
  - rewrite !written_app, written_same.
    match goal with
    | |- context [written ?c (Socket ?a ?b :: ?t)] =>
        change (written c (Socket a b :: t)) with (@nil string)
    end.
    unfold handshake_chunks.
    destruct (Z.eqb_spec (bitor_zero opts_retry) 0); [contradiction|].
    reflexivity.
  - pose proof (Number_toString_one_line (bitor_zero opts_retry)) as H.
    unfold one_line in H. apply andb_true_iff in H as [_ H].
    apply negb_true_iff in H.
    change (has_char LF (Number_toString (bitor_zero opts_retry)) = false).
    exact H.
Qed.

(** X11, at an instance: a retry time of 3000 milliseconds. *)
Lemma LibSseChannel_handshake_retry_unterminated_witness :
  let w := mkWorld (LibSseChannel.new default_options) [] in
  bitor_zero (PNum 3000) <> 0 /\
  written 1%nat
    (log (exec (LibSseChannel.initializeConnection (plain_request 0) 1%nat
                  (PNum 3000) PUndefined) w))
  = [":ok" ++ NLNL; "retry:3000"].
Proof.
  cbv zeta.
  assert (H : bitor_zero (PNum 3000) <> 0) by discriminate.
  split; [exact H|].
  match goal with
  | |- written _ (log (exec _ ?w)) = _ =>
      rewrite (proj1 (LibSseChannel_handshake_retry_unterminated
                        (plain_request 0) 1%nat (PNum 3000) PUndefined w H))
  end.
  reflexivity.
Defined.

(** X12.  [close] of version 1.0.4 completes and ends every connection of
    the registry once per registration, the last one first.  It does not
    remove them: registry and count are as they were, until the responses
    report their end through [removeClient]. *)
Theorem close_ends_every_connection :
  forall w : World SseChannel.Channel,
    let w' := exec SseChannel.close w in
    outcome SseChannel.close w = Normal tt /\
    this w' = this w /\
    log w'
    = (log w ++ map (fun c => End c)
                    (rev (SseChannel.connections (this w))))%list /\
    (forall c, written c (log w') = written c (log w)).
Proof.
  intros w w'. subst w'. unfold exec, outcome, SseChannel.close, bind, get_this.
  rewrite while_down_perform by lia. rewrite firstn_all.
  cbn [fst snd this log]. repeat split.
  intros c. rewrite written_app.
  assert (H : forall l, written c (map (fun c' => End c') l) = []).
  { induction l as [|x l IH]; [reflexivity|]. exact IH. }
  now rewrite H, app_nil_r.
Qed.

(** X13.  [retry] of version 1.0.4 completes and writes [retry: ], the text
    of its argument and a line feed to every connection of the registry, once
    per registration.  It leaves the channel as it was, the [retryTimeout]
    of the constructor included: a client that connects later is still told
    the retry time the channel was built with. *)
Theorem retry_broadcasts_and_keeps_retryTimeout :
  forall (retryTimeout : JsVal) (w : World SseChannel.Channel)
         (req : Request) (res : conn) (callback : bool),
    let line := "retry: " ++ ToString retryTimeout ++ NL in
    let w' := exec (SseChannel.retry retryTimeout) w in
    outcome (SseChannel.retry retryTimeout) w = Normal tt /\
    this w' = this w /\
    (forall c,
        written c (log w')
        = (written c (log w)
           ++ repeat line
                (count_occ Nat.eq_dec (SseChannel.connections (this w)) c))%list) /\
    exec (SseChannel.addClient req res callback) (mkWorld (this w') [])
    = exec (SseChannel.addClient req res callback) (mkWorld (this w) []).
Proof.
  intros retryTimeout w req res callback line w'. subst line w'.
  unfold exec, outcome, SseChannel.retry, bind, get_this.
  rewrite broadcast_writes. cbn [fst snd this log].
  repeat split.
  intros c. now rewrite written_app, written_map_Write, count_occ_rev.
Qed.

(* ================================================================== *)
(** * More on the replay *)

(** The scan takes the longest run of entries newer than [lastId] at the
    front of the history. *)
Lemma missed_loop_front_run (h : list Entry) (lastId : Prim) :
  exists newer older,
    h = (newer ++ older)%list /\
    Forall (fun e => js_le (entry_id e) lastId = false) newer /\
    match older with
    | [] => True
    | e :: _ => js_le (entry_id e) lastId = true
    end /\
    missed_loop h lastId [] = rev (map entry_msg newer).
Proof.
  induction h as [|e rest IH].
  - exists [], []. repeat split. constructor.
  - cbn [missed_loop]. destruct (js_le (entry_id e) lastId) eqn:Hle.
    + exists [], (e :: rest). repeat split; [constructor | exact Hle].
    + destruct IH as (newer & older & Hh & Hnewer & Holder & Hloop).
      exists (e :: newer), older. rewrite missed_loop_acc, Hloop, Hh.
      repeat split; [now constructor | exact Holder].
Qed.

(** X14.  A replay, on any history and for any [lastId], ordered or not: it
    completes, leaves the channel as it is, writes to the given response
    only, and what it writes is, oldest first, the frames of the longest run
    of entries at the front of the history whose ids are not [<= lastId]; it
    stops at the first entry that is, never writing that entry nor any
    behind it. *)
Theorem sendMissedEvents_front_run :
  forall (response : conn) (lastId : Prim) (w : World SseChannel.Channel),
    let w' := exec (SseChannel.sendMissedEvents response lastId) w in
    outcome (SseChannel.sendMissedEvents response lastId) w = Normal tt /\
    this w' = this w /\
    (forall c, c <> response -> written c (log w') = written c (log w)) /\
    exists newer older,
      SseChannel.history (this w) = (newer ++ older)%list /\
      Forall (fun e => js_le (entry_id e) lastId = false) newer /\
      match older with
      | [] => True
      | e :: _ => js_le (entry_id e) lastId = true
      end /\
      written response (log w')
      = (written response (log w) ++ rev (map entry_msg newer))%list.
Proof.
  intros response lastId w w'. subst w'. unfold exec, outcome.
  rewrite SseChannel_sendMissedEvents_run. cbn [fst snd this log].
  split; [reflexivity|]. split; [reflexivity|]. split.
  - intros c Hc. rewrite written_app, (written_other c response _ Hc).
    now rewrite app_nil_r.
  - destruct (missed_loop_front_run (SseChannel.history (this w)) lastId)
      as (newer & older & Hh & Hnewer & Holder & Hloop).
    exists newer, older. repeat split; try assumption.
    now rewrite written_app, written_same, Hloop.
Qed.

(** ** The text of an id *)

Lemma digits_value_digit (k : N) (s : string) (acc : Z) :
  (k < 10)%N ->
  digits_value (String (ascii_of_N (48 + k)) s) acc
  = digits_value s (10 * acc + Z.of_N k).
Proof.
  intros Hk.
  assert (H : (k = 0 \/ k = 1 \/ k = 2 \/ k = 3 \/ k = 4 \/ k = 5 \/ k = 6
               \/ k = 7 \/ k = 8 \/ k = 9)%N) by lia.
  repeat (destruct H as [->|H]; [reflexivity|]). subst k. reflexivity.
Qed.

Lemma digits_value_revapp (d acc : Decimal.uint) :
  digits_value (NilEmpty.string_of_uint d)
    (Z.of_N (DecimalPos.Unsigned.of_lu acc))
  = Some (Z.of_N (DecimalPos.Unsigned.of_lu (Decimal.revapp d acc))).
Proof.
  revert acc. induction d; intros acc;
    cbn [NilEmpty.string_of_uint Decimal.revapp]; [reflexivity|..];
    rewrite <- IHd.
  - rewrite (digits_value_digit 0) by reflexivity. f_equal.
    cbn [DecimalPos.Unsigned.of_lu]. lia.
  - rewrite (digits_value_digit 1) by reflexivity. f_equal.
    cbn [DecimalPos.Unsigned.of_lu]. lia.
  - rewrite (digits_value_digit 2) by reflexivity. f_equal.
    cbn [DecimalPos.Unsigned.of_lu]. lia.
  - rewrite (digits_value_digit 3) by reflexivity. f_equal.
    cbn [DecimalPos.Unsigned.of_lu]. lia.
  - rewrite (digits_value_digit 4) by reflexivity. f_equal.
    cbn [DecimalPos.Unsigned.of_lu]. lia.
  - rewrite (digits_value_digit 5) by reflexivity. f_equal.
    cbn [DecimalPos.Unsigned.of_lu]. lia.
  - rewrite (digits_value_digit 6) by reflexivity. f_equal.
    cbn [DecimalPos.Unsigned.of_lu]. lia.
  - rewrite (digits_value_digit 7) by reflexivity. f_equal.
    cbn [DecimalPos.Unsigned.of_lu]. lia.
  - rewrite (digits_value_digit 8) by reflexivity. f_equal.
    cbn [DecimalPos.Unsigned.of_lu]. lia.
  - rewrite (digits_value_digit 9) by reflexivity. f_equal.
    cbn [DecimalPos.Unsigned.of_lu]. lia.
Qed.

Lemma digits_value_of_uint (d : Decimal.uint) :
  digits_value (NilEmpty.string_of_uint d) 0 = Some (Z.of_uint d).
Proof.
  change 0 with (Z.of_N (DecimalPos.Unsigned.of_lu Decimal.Nil)).
  rewrite digits_value_revapp. unfold Z.of_uint.
  now rewrite DecimalPos.Unsigned.of_uint_alt.
Qed.

Lemma string_rev_onto_app (s acc : string) :
  string_rev_onto s acc = string_rev s ++ acc.
Proof.
  unfold string_rev. revert acc.
  induction s as [|c s IH]; intros acc; [reflexivity|].
  cbn [string_rev_onto]. rewrite (IH (String c acc)), (IH (String c "")).
  now rewrite append_assoc.
Qed.

Lemma string_rev_cons (c : ascii) (s : string) :
  string_rev (String c s) = string_rev s ++ str1 c.
Proof. unfold string_rev at 1. cbn [string_rev_onto]. apply string_rev_onto_app. Qed.

Lemma string_rev_append (s t : string) :
  string_rev (s ++ t) = string_rev t ++ string_rev s.
Proof.
  induction s as [|c s IH]; cbn [append].
  - change (string_rev "") with "". now rewrite append_nil_r.
  - now rewrite !string_rev_cons, IH, append_assoc.
Qed.

Lemma string_rev_involutive (s : string) : string_rev (string_rev s) = s.
Proof.
  induction s as [|c s IH]; [reflexivity|].
  now rewrite string_rev_cons, string_rev_append, IH.
Qed.

Lemma no_space_append (s t : string) :
  no_space (s ++ t) = no_space s && no_space t.
Proof.
  induction s as [|c s IH]; [reflexivity|].
  cbn [append no_space]. now rewrite IH, andb_assoc.
Qed.

Lemma no_space_rev (s : string) : no_space (string_rev s) = no_space s.
Proof.
  induction s as [|c s IH]; [reflexivity|].
  rewrite string_rev_cons, no_space_append, IH. cbn [no_space str1].
  rewrite andb_true_r. apply andb_comm.
Qed.

Lemma trim_left_no_space (s : string) : no_space s = true -> trim_left s = s.
Proof.
  destruct s as [|c s]; [reflexivity|]. cbn [no_space trim_left].
  intros H. apply andb_true_iff in H as [H _].
  apply negb_true_iff in H. now rewrite H.
Qed.

Lemma trim_no_space (s : string) : no_space s = true -> trim s = s.
Proof.
  intros H. unfold trim. rewrite (trim_left_no_space s H).
  rewrite trim_left_no_space by now rewrite no_space_rev.
  apply string_rev_involutive.
Qed.

Lemma string_of_uint_no_space (d : Decimal.uint) :
  no_space (NilEmpty.string_of_uint d) = true.
Proof. induction d; cbn [NilEmpty.string_of_uint no_space]; [reflexivity|..]; exact IHd. Qed.

Lemma unsigned_value_string_of_uint (d : Decimal.uint) :
  unsigned_value (NilZero.string_of_uint d) = Some (Z.of_uint d).
Proof.
  destruct d; [reflexivity|..];
    match goal with
    | |- unsigned_value (NilZero.string_of_uint ?d) = _ =>
        change (digits_value (NilEmpty.string_of_uint d) 0 = Some (Z.of_uint d))
    end; apply digits_value_of_uint.
Qed.

Lemma NilZero_string_of_uint_no_space (d : Decimal.uint) :
  no_space (NilZero.string_of_uint d) = true.
Proof.
  destruct d; [reflexivity|..];
    match goal with
    | |- no_space (NilZero.string_of_uint ?d) = _ =>
        change (no_space (NilEmpty.string_of_uint d) = true)
    end; apply string_of_uint_no_space.
Qed.

(** The text of an integer reads back as that integer. *)
Lemma String_toNumber_Number_toString (n : Z) :
  String_toNumber (Number_toString n) = Some n.
Proof.
  unfold Number_toString, String_toNumber.
  rewrite <- (DecimalZ.of_to n) at 2.
  destruct (Z.to_int n) as [d|d]; cbn [NilZero.string_of_int Z.of_int].
  - rewrite trim_no_space by apply NilZero_string_of_uint_no_space.
    rewrite <- unsigned_value_string_of_uint.
    destruct d; reflexivity.
  - rewrite trim_no_space
      by (cbn [no_space]; apply NilZero_string_of_uint_no_space).
    cbn. now rewrite unsigned_value_string_of_uint.
Qed.

Lemma missed_loop_same_number (h : list Entry) (a b : Prim) (n : Z) :
  numeric_ids h = true ->
  ToNumber a = Some n ->
  ToNumber b = Some n ->
  forall entries, missed_loop h a entries = missed_loop h b entries.
Proof.
  intros Hnum Ha Hb. induction h as [|e rest IH]; intros entries;
    [reflexivity|].
  cbn [numeric_ids forallb] in Hnum. apply andb_true_iff in Hnum as [He Hrest].
  cbn [missed_loop]. destruct (entry_id e) as [| |x|m|s]; try discriminate.
  rewrite (js_le_number m a n Ha), (js_le_number m b n Hb).
  destruct (m <=? n); [reflexivity|]. now apply IH.
Qed.

(** X15.  The text of a numeric id, as the frame carries it on its [id:]
    line and as a client sends it back in the [last-event-id] header, reads
    back as the number; on a history whose ids are numbers, a replay from
    that text is the replay from the number itself. *)
Theorem resume_from_id_text :
  forall (response : conn) (n : Z) (w : World SseChannel.Channel),
    numeric_ids (SseChannel.history (this w)) = true ->
    ToNumber (PStr (prim_ToString (PNum n))) = Some n /\
    SseChannel.sendMissedEvents response (PStr (prim_ToString (PNum n))) w
    = SseChannel.sendMissedEvents response (PNum n) w.
Proof.
  intros response n w Hnum.
  assert (Htext : ToNumber (PStr (prim_ToString (PNum n))) = Some n)
    by apply String_toNumber_Number_toString.
  split; [exact Htext|].
  rewrite !SseChannel_sendMissedEvents_run.
  now rewrite (missed_loop_same_number _ _ (PNum n) n Hnum Htext eq_refl).
Qed.

(** X15, at an instance: the ids 12 and 7, replayed from the text of 7. *)
Lemma resume_from_id_text_witness :
  let w :=
    mkWorld
      (SseChannel.set_history
         [{| entry_id := PNum 12; entry_msg := "b" |};
          {| entry_id := PNum 7; entry_msg := "a" |}]
         (SseChannel.new open_options)) [] in
  numeric_ids (SseChannel.history (this w)) = true /\
  log (exec (SseChannel.sendMissedEvents 1%nat (PStr "7")) w)
  = [Write 1%nat "b"].
Proof.
  cbv zeta. split; [reflexivity|].
  match goal with
  | |- log (exec _ ?w) = _ =>
      pose proof (proj2 (resume_from_id_text 1%nat 7 w eq_refl)) as H
  end.
  unfold exec. change (PStr (prim_ToString (PNum 7))) with (PStr "7") in H.
  rewrite H. reflexivity.
Defined.

(* ================================================================== *)
(** * More on the history *)

Lemma ids_le_filter (n : Z) (p : Entry -> bool) (h : list Entry) :
  ids_le n h = true -> ids_le n (filter p h) = true.
Proof.
  unfold ids_le. induction h as [|e h IH]; [reflexivity|].
  cbn [forallb filter]. intros H. apply andb_true_iff in H as [He Hh].
  destruct (p e); [cbn [forallb]; rewrite He|]; now apply IH.
Qed.

Lemma newest_first_filter (p : Entry -> bool) (h : list Entry) :
  newest_first h = true -> newest_first (filter p h) = true.
Proof.
  induction h as [|e h IH]; [reflexivity|].
  cbn [newest_first filter]. intros H.
  destruct (entry_id e) as [| |b|n|s] eqn:Hid; try discriminate.
  apply andb_true_iff in H as [Hle Hh].
  destruct (p e); [|now apply IH].
  cbn [newest_first]. rewrite Hid.
  change (forallb _ (filter p h)) with (ids_le n (filter p h)).
  now rewrite (ids_le_filter n p h Hle), (IH Hh).
Qed.

Lemma ids_le_removelast (n : Z) (h : list Entry) :
  ids_le n h = true -> ids_le n (removelast h) = true.
Proof.
  unfold ids_le. induction h as [|e h IH]; [reflexivity|].
  cbn [forallb removelast]. intros H. apply andb_true_iff in H as [He Hh].
  destruct h as [|e' h']; [reflexivity|].
  cbn [forallb]. rewrite He. cbn [andb]. now apply IH.
Qed.

Lemma newest_first_removelast (h : list Entry) :
  newest_first h = true -> newest_first (removelast h) = true.
Proof.
  induction h as [|e h IH]; [reflexivity|].
  cbn [newest_first removelast]. intros H.
  destruct (entry_id e) as [| |b|n|s] eqn:Hid; try discriminate.
  apply andb_true_iff in H as [Hle Hh].
  destruct h as [|e' h']; [reflexivity|].
  cbn [newest_first]. rewrite Hid.
  change (forallb _ (removelast (e' :: h')))
    with (ids_le n (removelast (e' :: h'))).
  now rewrite (ids_le_removelast n _ Hle), (IH Hh).
Qed.

Lemma ids_le_weaken (n n' : Z) (h : list Entry) :
  n <= n' -> ids_le n h = true -> ids_le n' h = true.
Proof.
  intros Hn. unfold ids_le. induction h as [|e h IH]; [reflexivity|].
  cbn [forallb]. intros H. apply andb_true_iff in H as [He Hh].
  rewrite (IH Hh), andb_true_r.
  destruct (entry_id e) as [| |b|m|s]; try discriminate.
  apply Z.leb_le in He. apply Z.leb_le. lia.
Qed.

(** The history a publish with a truthy id leaves. *)
Lemma send_identified_history (msg : Message) (w : World SseChannel.Channel) :
  prim_truthy (get_id msg) = true ->
  let pushed :=
    entry_of (this w) msg
    :: SseChannel.reject_id (SseChannel.history (this w)) (get_id msg) in
  SseChannel.history (this (exec (SseChannel.send msg None) w))
  = if Z.of_nat (List.length pushed) >? SseChannel.historySize (this w)
    then pop pushed else pushed.
Proof.
  intros Hid pushed. unfold exec.
  now rewrite (send_identified_run msg w Hid).
Qed.

(** X16.  Publishers that hand out numeric ids in non-decreasing order keep
    the history in the order the replay relies on: if the history is stored
    most recent first and no stored id is greater than the (non-zero) id of
    the message, it is still stored most recent first after the publish, and
    no stored id is greater than the id of the message. *)
Theorem send_keeps_newest_first :
  forall (msg : Message) (n : Z) (w : World SseChannel.Channel),
    get_id msg = PNum n ->
    n <> 0 ->
    newest_first (SseChannel.history (this w)) = true ->
    ids_le n (SseChannel.history (this w)) = true ->
    let h' := SseChannel.history (this (exec (SseChannel.send msg None) w)) in
    newest_first h' = true /\ ids_le n h' = true.
Proof.
  intros msg n w Hid Hn Hsorted Hle h'. subst h'.
  assert (Htruthy : prim_truthy (get_id msg) = true).
  { rewrite Hid. cbn [prim_truthy]. now destruct (Z.eqb_spec n 0). }
  rewrite (send_identified_history msg w Htruthy). cbv zeta.
  set (kept := SseChannel.reject_id _ _).
  assert (Hkept : newest_first kept = true /\ ids_le n kept = true).
  { subst kept. unfold SseChannel.reject_id.
    split; [now apply newest_first_filter | now apply ids_le_filter]. }
  destruct Hkept as [Hk1 Hk2].
  assert (Hpushed : newest_first (entry_of (this w) msg :: kept) = true
                    /\ ids_le n (entry_of (this w) msg :: kept) = true).
  { split.
    - cbn [newest_first entry_of entry_id]. rewrite Hid.
      change (forallb _ kept) with (ids_le n kept). now rewrite Hk1, Hk2.
    - unfold ids_le. cbn [forallb entry_of entry_id]. rewrite Hid.
      fold (ids_le n kept). rewrite Hk2, andb_true_r. apply Z.leb_refl. }
  destruct Hpushed as [Hp1 Hp2].
  destruct (_ >? _).
  - split; [now apply newest_first_removelast | now apply ids_le_removelast].
  - now split.
Qed.

(** X16, at an instance: id 3 published to a history holding 2 and 1. *)
Lemma send_keeps_newest_first_witness :
  let w :=
    mkWorld
      (SseChannel.set_history
         [{| entry_id := PNum 2; entry_msg := "b" |};
          {| entry_id := PNum 1; entry_msg := "a" |}]
         (SseChannel.new open_options)) [] in
  let msg := MObject (text_message PUndefined PUndefined (PNum 3) "c") in
  newest_first (SseChannel.history (this w)) = true /\
  ids_le 3 (SseChannel.history (this w)) = true /\
  newest_first
    (SseChannel.history (this (exec (SseChannel.send msg None) w))) = true.
Proof.
  cbv zeta. split; [reflexivity|]. split; [reflexivity|].
  match goal with
  | |- newest_first (SseChannel.history (this (exec (SseChannel.send ?m None) ?w)))
       = true =>
      apply (send_keeps_newest_first m 3 w eq_refl)
  end.
  - discriminate.
  - reflexivity.
  - reflexivity.
Defined.

(** With room for one entry at least, a publish with a truthy id leaves the
    new entry in front of the history. *)
Lemma send_identified_front (msg : Message) (w : World SseChannel.Channel) :
  prim_truthy (get_id msg) = true ->
  0 < SseChannel.historySize (this w) ->
  exists rest,
    SseChannel.history (this (exec (SseChannel.send msg None) w))
    = entry_of (this w) msg :: rest.
Proof.
  intros Hid Hsize. rewrite (send_identified_history msg w Hid). cbv zeta.
  set (kept := SseChannel.reject_id _ _).
  destruct (_ >? _) eqn:Hgt; [|now exists kept].
  apply Z.gtb_lt in Hgt. cbn [List.length] in Hgt.
  destruct kept as [|k kept']; [cbn [List.length] in Hgt; lia|].
  now exists (removelast (k :: kept')).
Qed.

(** X17.  Publish, then replay: on a channel with a positive [historySize],
    after a message with the numeric id [n] was published, a replay from any
    [lastId] that reads as a number below [n] writes the frame of that
    message, and writes it last. *)
Theorem replay_ends_with_latest :
  forall (msg : Message) (n : Z) (lastId : Prim) (k : Z) (response : conn)
         (w : World SseChannel.Channel),
    get_id msg = PNum n ->
    n <> 0 ->
    ToNumber lastId = Some k ->
    k < n ->
    0 < SseChannel.historySize (this w) ->
    let w1 := exec (SseChannel.send msg None) w in
    let w2 := exec (SseChannel.sendMissedEvents response lastId) w1 in
    exists older,
      written response (log w2)
      = (written response (log w1) ++ older ++ [frame_of (this w) msg])%list.
Proof.
  intros msg n lastId k response w Hid Hn Hnum Hk Hsize w1 w2.
  subst w2. unfold exec at 1.
  rewrite SseChannel_sendMissedEvents_run. cbn [snd log].
  assert (Htruthy : prim_truthy (get_id msg) = true).
  { rewrite Hid. cbn [prim_truthy]. now destruct (Z.eqb_spec n 0). }
  destruct (send_identified_front msg w Htruthy Hsize) as [rest Hfront].
  fold w1 in Hfront. rewrite Hfront.
  cbn [missed_loop entry_of entry_id entry_msg]. rewrite Hid.
  rewrite (js_le_number n lastId k Hnum).
  replace (n <=? k) with false by (symmetry; apply Z.leb_gt; lia).
  rewrite missed_loop_acc.
  exists (missed_loop rest lastId []).
  now rewrite written_app, written_same.
Qed.

(** X17, at an instance: id 5 published to a fresh channel, then a replay
    from the header text 3. *)
Lemma replay_ends_with_latest_witness :
  let w := mkWorld (SseChannel.new open_options) [] in
  let msg := MObject (text_message PUndefined PUndefined (PNum 5) "x") in
  let w1 := exec (SseChannel.send msg None) w in
  let w2 := exec (SseChannel.sendMissedEvents 1%nat (PStr "3")) w1 in
  0 < SseChannel.historySize (this w) /\
  exists older,
    written 1%nat (log w2)
    = (written 1%nat (log w1) ++ older
       ++ [("id: 5" ++ NL ++ "data: x" ++ NLNL)%string])%list.
Proof.
  cbv zeta. split; [reflexivity|].
  match goal with
  | |- exists _, written _ (log (exec _ (exec (SseChannel.send ?m None) ?w)))
                 = _ =>
      apply (replay_ends_with_latest m 5 (PStr "3") 3 1%nat w eq_refl)
  end.
  - discriminate.
  - reflexivity.
  - reflexivity.
  - reflexivity.
Defined.

(* ================================================================== *)
(** * What every run of calls keeps *)

Lemma frame_ends_with_LF (msg : Message) (jsonEncode : bool) :
  ends_with_LF (SseChannel.parseMessage msg jsonEncode) = true.
Proof.
  destruct msg as [s|m].
  - unfold SseChannel.parseMessage, SseChannel.parseTextData.
    destruct (parseTextData_string_ends_blank (ToString (PStr s)))
      as [body ->].
    now apply ends_with_LF_append.
  - rewrite SseChannel_parseMessage_object. unfold SseChannel.parseTextData.
    destruct (parseTextData_string_ends_blank
                (ToString (if jsonEncode
                           then JSON_stringify_val
                                  (js_or (msg_data m) (PStr ""))
                           else js_or (msg_data m) (PStr ""))))
      as [body ->].
    rewrite <- append_assoc. now apply ends_with_LF_append.
Qed.

Lemma handshake_chunks_end_with_LF (opts_retry opts_preamble : Prim) :
  Forall (fun chunk => ends_with_LF chunk = true)
    (handshake_chunks (fun retry => "retry: " ++ Number_toString retry ++ NL)
                      opts_retry opts_preamble).
Proof.
  unfold handshake_chunks. repeat (apply Forall_app; split).
  - repeat constructor.
  - destruct (bitor_zero opts_retry =? 0); repeat constructor.
    rewrite <- append_assoc. now apply ends_with_LF_append.
  - destruct (prim_truthy opts_preamble); repeat constructor.
Qed.

Lemma chunks_app (l1 l2 : list Effect) :
  chunks (l1 ++ l2) = (chunks l1 ++ chunks l2)%list.
Proof. unfold chunks, writes. now rewrite flat_map_app, map_app. Qed.

Lemma chunks_Write_each (cs : list conn) (packet : string) :
  chunks (map (fun c => Write c packet) cs) = map (fun _ => packet) cs.
Proof.
  induction cs as [|c cs IH]; [reflexivity|].
  cbn [map]. change (chunks (Write c packet :: ?l)) with (packet :: chunks l).
  now rewrite IH.
Qed.

Lemma chunks_Write_list (res : conn) (l : list string) :
  chunks (map (fun chunk => Write res chunk) l) = l.
Proof.
  induction l as [|x l IH]; [reflexivity|].
  cbn [map]. change (chunks (Write res x :: ?t)) with (x :: chunks t).
  now rewrite IH.
Qed.

Lemma chunks_End_each (cs : list conn) : chunks (map (fun c => End c) cs) = [].
Proof. induction cs as [|c cs IH]; [reflexivity | exact IH]. Qed.

Lemma Forall_same {A B : Type} (P : B -> Prop) (b : B) (l : list A) :
  P b -> Forall P (map (fun _ => b) l).
Proof. intros H. induction l; constructor; assumption. Qed.

Lemma Forall_removelast {A : Type} (P : A -> Prop) (l : list A) :
  Forall P l -> Forall P (removelast l).
Proof.
  intros H. induction H as [|x l Hx Hl IH]; [constructor|].
  cbn [removelast]. destruct l; [constructor|]. now constructor.
Qed.

Lemma Forall_filter_keep {A : Type} (P : A -> Prop) (p : A -> bool)
    (l : list A) : Forall P l -> Forall P (filter p l).
Proof.
  intros H. induction H as [|x l Hx Hl IH]; [constructor|].
  cbn [filter]. destruct (p x); [now constructor | exact IH].
Qed.

(** The frames a replay writes are frames of the history. *)
Lemma missed_loop_Forall (P : string -> Prop) (h : list Entry)
    (lastId : Prim) :
  Forall (fun e => P (entry_msg e)) h ->
  forall entries, Forall P entries -> Forall P (missed_loop h lastId entries).
Proof.
  intros H. induction H as [|e h He Hh IH]; intros entries Hentries;
    [exact Hentries|].
  cbn [missed_loop]. destruct (js_le (entry_id e) lastId); [exact Hentries|].
  apply IH. now constructor.
Qed.

(** A publish with a truthy id keeps the state of the history. *)
Lemma send_identified_history_ok (msg : Message)
    (w : World SseChannel.Channel) :
  prim_truthy (get_id msg) = true ->
  history_ok (this w) ->
  history_ok
    (SseChannel.set_history
       (SseChannel.history (this (exec (SseChannel.send msg None) w)))
       (this w)).
Proof.
  intros Hid (Hnodup & Hsize & Htruthy & HLF).
  rewrite (send_identified_history msg w Hid). cbv zeta.
  set (h := SseChannel.history (this w)) in *.
  set (size := SseChannel.historySize (this w)) in *.
  set (kept := SseChannel.reject_id h (get_id msg)).
  set (entry := entry_of (this w) msg).
  assert (Hkept : (List.length kept <= List.length h)%nat)
    by apply filter_length_le.
  assert (Hp1 : NoDup (ids (entry :: kept))).
  { unfold ids. cbn [map]. constructor.
    - apply reject_id_absent.
    - now apply NoDup_ids_filter. }
  assert (Hp3 : Forall (fun e => prim_truthy (entry_id e) = true)
                       (entry :: kept)).
  { constructor; [exact Hid | now apply Forall_filter_keep]. }
  assert (Hp4 : Forall (fun e => ends_with_LF (entry_msg e) = true)
                       (entry :: kept)).
  { constructor; [apply frame_ends_with_LF | now apply Forall_filter_keep]. }
  unfold history_ok.
  cbn [SseChannel.history SseChannel.historySize SseChannel.set_history].
  fold size.
  destruct (Z.of_nat (List.length (entry :: kept)) >? size) eqn:Hgt.
  - destruct (removelast_snoc (entry :: kept)) as [oldest Hold];
      [discriminate|].
    unfold pop. repeat split.
    + unfold ids in *. rewrite Hold, map_app in Hp1.
      now apply NoDup_app_remove_r in Hp1.
    + apply (f_equal (@List.length Entry)) in Hold.
      rewrite length_app in Hold. cbn [List.length] in Hold.
      cbn [List.length]. lia.
    + now apply Forall_removelast.
    + now apply Forall_removelast.
  - repeat split; try assumption.
    destruct (Z.gtb_spec (Z.of_nat (List.length (entry :: kept))) size);
      [discriminate | lia].
Qed.

Lemma same_options_refl (ch : SseChannel.Channel) : same_options ch ch.
Proof. unfold same_options. repeat split. Qed.

(** What one call does: it completes, it only appends to the effect log, it
    keeps the options and the state of the history, and every chunk it
    writes ends with a line feed. *)
Lemma call_keeps (c : Call) (w : World SseChannel.Channel) :
  history_ok (this w) ->
  exists ch' new,
    call c w = (Normal tt, mkWorld ch' (log w ++ new)) /\
    history_ok ch' /\
    same_options ch' (this w) /\
    Forall (fun chunk => ends_with_LF chunk = true) (chunks new).
Proof.
  intros Hok.
  assert (HLF : Forall (fun e => ends_with_LF (entry_msg e) = true)
                       (SseChannel.history (this w)))
    by apply Hok.
  destruct c as [req res callback|res| | |retryTimeout|msg clients
                |response lastId| ]; cbn [call].
  - (* addClient *)
    destruct (SseChannel.cors (this w) req) as [|statusCode] eqn:Hcors.
    + rewrite (addClient_accepted_run req res callback w Hcors).
      eexists _, _. split; [reflexivity|].
      split; [exact Hok|]. split; [(unfold same_options; repeat split; reflexivity)|].
      rewrite !chunks_app, !chunks_Write_list.
      assert (Hcb : chunks (if callback then [Callback PUndefined] else [])
                    = []) by (destruct callback; reflexivity).
      rewrite Hcb.
      repeat match goal with
      | |- context [chunks (?e :: ?t)] =>
          lazymatch e with
          | Write _ _ => fail
          | _ => change (chunks (e :: t)) with (chunks t)
          end
      end.
      change (chunks []) with (@nil string). cbn [app]. rewrite app_nil_r.
      apply Forall_app; split.
      * apply handshake_chunks_end_with_LF.
      * unfold replayed. destruct (resume_id req); [|constructor].
        apply missed_loop_Forall; [exact HLF | constructor].
    + unfold SseChannel.addClient, bind, get_this. rewrite Hcors.
      destruct callback; cbn [when perform ret].
      * eexists _, _. split; [reflexivity|].
        split; [exact Hok|]. split; [(unfold same_options; repeat split; reflexivity) | constructor].
      * exists (this w), []. rewrite app_nil_r, world_eta.
        split; [reflexivity|].
        split; [exact Hok|]. split; [(unfold same_options; repeat split; reflexivity) | constructor].
  - (* removeClient *)
    rewrite SseChannel_removeClient_run.
    eexists _, _. split; [reflexivity|].
    split; [exact Hok|]. split; [(unfold same_options; repeat split; reflexivity) | constructor].
  - (* getConnectionCount *)
    exists (this w), []. rewrite app_nil_r, world_eta.
    split; [reflexivity|].
    split; [exact Hok|]. split; [(unfold same_options; repeat split; reflexivity) | constructor].
  - (* ping *)
    unfold SseChannel.ping, bind, get_this. rewrite broadcast_writes.
    eexists _, _. split; [reflexivity|].
    split; [exact Hok|]. split; [(unfold same_options; repeat split; reflexivity)|].
    rewrite chunks_Write_each. now apply Forall_same.
  - (* retry *)
    unfold SseChannel.retry, bind, get_this. rewrite broadcast_writes.
    eexists _, _. split; [reflexivity|].
    split; [exact Hok|]. split; [(unfold same_options; repeat split; reflexivity)|].
    rewrite chunks_Write_each. apply Forall_same.
    rewrite <- append_assoc. now apply ends_with_LF_append.
  - (* send *)
    assert (Hframe : forall cs : list conn,
      Forall (fun chunk => ends_with_LF chunk = true)
        (chunks (map (fun c => Write c (frame_of (this w) msg)) cs
                 ++ [Emit (EvMessage msg clients)]))).
    { intros cs. rewrite chunks_app, chunks_Write_each.
      apply Forall_app. split; [|constructor].
      apply Forall_same. apply frame_ends_with_LF. }
    destruct clients as [cs|].
    + rewrite send_clients_run.
      eexists _, _. split; [reflexivity|].
      split; [exact Hok|]. split; [(unfold same_options; repeat split; reflexivity) | apply Hframe].
    + destruct (prim_truthy (get_id msg)) eqn:Hid.
      * pose proof (send_identified_history_ok msg w Hid Hok) as Hok'.
        unfold exec in Hok'.
        rewrite (send_identified_run msg w Hid) in Hok' |- *.
        cbn [snd this SseChannel.history SseChannel.set_history] in Hok'.
        eexists _, _. split; [reflexivity|].
        split; [exact Hok'|]. split; [(unfold same_options; repeat split; reflexivity) | apply Hframe].
      * rewrite (send_unidentified_run msg w Hid).
        eexists _, _. split; [reflexivity|].
        split; [exact Hok|]. split; [(unfold same_options; repeat split; reflexivity) | apply Hframe].
  - (* sendMissedEvents *)
    rewrite SseChannel_sendMissedEvents_run.
    eexists _, _. split; [reflexivity|].
    split; [exact Hok|]. split; [(unfold same_options; repeat split; reflexivity)|].
    rewrite chunks_Write_list.
    apply missed_loop_Forall; [exact HLF | constructor].
  - (* close *)
    unfold SseChannel.close, bind, get_this.
    rewrite while_down_perform by lia.
    eexists _, _. split; [reflexivity|].
    split; [exact Hok|]. split; [(unfold same_options; repeat split; reflexivity)|].
    rewrite chunks_End_each. constructor.
Qed.

(** X18.  From a channel of version 1.0.4 whose history has pairwise
    distinct, truthy ids, at most [historySize] entries and frames that end
    with a line feed (a fresh channel, for one), every run of calls to
    [addClient], [removeClient], [getConnectionCount], [ping], [retry],
    [send], [sendMissedEvents] and [close], with any arguments, completes
    without an exception, leaves a history in that state again, changes no
    option, never removes an effect already logged, and writes only chunks
    that end with a line feed. *)
Theorem calls_keep_history_ok :
  forall (l : list Call) (w : World SseChannel.Channel),
    history_ok (this w) ->
    let w' := exec (calls l) w in
    outcome (calls l) w = Normal tt /\
    history_ok (this w') /\
    same_options (this w') (this w) /\
    exists new,
      log w' = (log w ++ new)%list /\
      Forall (fun chunk => ends_with_LF chunk = true) (chunks new).
Proof.
  induction l as [|c rest IH]; intros w Hok w'; subst w'.
  - unfold exec, outcome. cbn [calls ret fst snd].
    split; [reflexivity|]. split; [exact Hok|].
    split; [apply same_options_refl|].
    exists []. now rewrite app_nil_r.
  - destruct (call_keeps c w Hok) as (ch1 & new1 & Hrun & Hok1 & Hopt1 & HLF1).
    specialize (IH (mkWorld ch1 (log w ++ new1)) Hok1). cbv zeta in IH.
    destruct IH as (Hout & Hok' & Hopt' & new2 & Hlog & HLF2).
    unfold exec, outcome in *. cbn [calls]. unfold bind. rewrite Hrun.
    split; [exact Hout|]. split; [exact Hok'|].
    split.
    + cbn [this] in Hopt'. unfold same_options in *.
      destruct Hopt' as (A1 & A2 & A3 & A4 & A5 & A6).
      destruct Hopt1 as (B1 & B2 & B3 & B4 & B5 & B6).
      repeat split; congruence.
    + exists (new1 ++ new2)%list. cbn [log] in Hlog.
      rewrite Hlog, app_assoc. split; [reflexivity|].
      rewrite chunks_app. apply Forall_app. now split.
Qed.

(** X18, at an instance: a run of nine calls on a fresh channel. *)
Lemma calls_keep_history_ok_witness :
  let w := mkWorld (SseChannel.new open_options) [] in
  let msg (id : Z) := MObject (text_message PUndefined PUndefined (PNum id) "x") in
  let l :=
    [CallAddClient (plain_request 0) 1%nat true;
     CallSend (msg 1) None; CallSend (msg 2) None; CallSend (msg 1) None;
     CallPing; CallRetry (PNum 1000);
     CallSendMissedEvents 1%nat (PStr "1");
     CallRemoveClient 1%nat; CallClose] in
  history_ok (this w) /\
  outcome (calls l) w = Normal tt /\
  history_ok (this (exec (calls l) w)).
Proof.
  cbv zeta.
  assert (Hok : history_ok (this (mkWorld (SseChannel.new open_options) []))).
  { unfold history_ok. cbn. repeat split; try constructor. discriminate. }
  split; [exact Hok|].
  match goal with
  | |- outcome (calls ?l) ?w = _ /\ _ =>
      destruct (calls_keep_history_ok l w Hok) as (Hout & Hok' & _)
  end.
  split; [exact Hout | exact Hok'].
Defined.

(* ================================================================== *)
(** * The constructor *)





(* ================================================================== *)
(** * The two implementations side by side *)

(** A publish on the channel of [lib/sse-channel.js], once the formatter has
    given a frame. *)
Lemma LibSseChannel_send_run (msg : Message) (frame : string)
    (w : World LibSseChannel.Channel) :
  LibSseChannel.parseMessage msg (LibSseChannel.autoSerialize (this w))
  = Normal frame ->
  let pushed :=
    {| entry_id := get_id msg; entry_msg := frame |}
    :: LibSseChannel.history (this w) in
  let kept :=
    if prim_truthy (get_id msg)
    then if Z.of_nat (List.length pushed) >? LibSseChannel.historySize (this w)
         then pop pushed else pushed
    else LibSseChannel.history (this w) in
  LibSseChannel.send msg w
  = (Normal tt,
     mkWorld (LibSseChannel.set_history kept (this w))
       (log w
        ++ map (fun c => Write c frame)
               (rev (LibSseChannel.connections (this w)))
        ++ [Emit (EvMessage msg None)])).
Proof.
  intros Hframe pushed kept. subst pushed kept.
  unfold LibSseChannel.send, bind, get_this, lift, when, modify.
  rewrite Hframe.
  destruct (prim_truthy (get_id msg)).
  - cbn [this log LibSseChannel.set_history LibSseChannel.history
         LibSseChannel.historySize].
    destruct (Z.of_nat _ >? LibSseChannel.historySize (this w));
      unfold ret; cbn [this log];
      rewrite broadcast_writes; unfold perform; cbn [this log];
      rewrite <- app_assoc; reflexivity.
  - unfold ret. cbn [this log]. rewrite broadcast_writes.
    unfold perform. cbn [this log]. rewrite <- app_assoc.
    destruct (this w); reflexivity.
Qed.

(** X20.  A publish to the whole channel does the same on both
    implementations whenever the two formatters give the same frame and no
    stored entry has the id of the message: started in the same state, both
    complete, end in the same state and log the same effects.  (With a
    stored entry of that id they part: only version 1.0.4 removes it.) *)
Theorem send_same_on_fresh_id :
  forall (msg : Message) (wa : World SseChannel.Channel)
         (wb : World LibSseChannel.Channel),
    same_channel (this wa) (this wb) ->
    log wa = log wb ->
    LibSseChannel.parseMessage msg (LibSseChannel.autoSerialize (this wb))
    = Normal (frame_of (this wa) msg) ->
    (forall e, In e (SseChannel.history (this wa)) ->
               entry_id e <> get_id msg) ->
    outcome (SseChannel.send msg None) wa = Normal tt /\
    outcome (LibSseChannel.send msg) wb = Normal tt /\
    same_channel (this (exec (SseChannel.send msg None) wa))
                 (this (exec (LibSseChannel.send msg) wb)) /\
    log (exec (SseChannel.send msg None) wa)
    = log (exec (LibSseChannel.send msg) wb).
Proof.
  intros msg wa wb (Hh & Hs & Hc & Hn) Hlog Hframe Hfresh.
  unfold exec, outcome.
  rewrite (LibSseChannel_send_run msg _ wb Hframe). cbv zeta.
  destruct (prim_truthy (get_id msg)) eqn:Hid.
  - rewrite (send_identified_run msg wa Hid). cbv zeta.
    rewrite (reject_id_fresh _ _ Hfresh).
    cbn [fst snd this log].
    unfold same_channel, entry_of.
    cbn [SseChannel.history SseChannel.historySize SseChannel.connections
         SseChannel.connectionCount SseChannel.set_history
         LibSseChannel.history LibSseChannel.historySize
         LibSseChannel.connections LibSseChannel.connectionCount
         LibSseChannel.set_history].
    rewrite <- Hh, <- Hs, <- Hc, <- Hlog.
    repeat split; try reflexivity; assumption.
  - rewrite (send_unidentified_run msg wa Hid).
    cbn [fst snd this log].
    unfold same_channel.
    cbn [LibSseChannel.history LibSseChannel.historySize
         LibSseChannel.connections LibSseChannel.connectionCount
         LibSseChannel.set_history].
    rewrite <- Hc, <- Hlog.
    repeat split; try reflexivity; assumption.
Qed.

(** X20, at an instance: a first message on two fresh channels. *)
Lemma send_same_on_fresh_id_witness :
  let wa := mkWorld (SseChannel.new open_options) [] in
  let wb := mkWorld (LibSseChannel.new default_options) [] in
  let msg := MObject (text_message (PStr "tick") PUndefined (PNum 1) "x") in
  same_channel (this wa) (this wb) /\
  log (exec (SseChannel.send msg None) wa)
  = log (exec (LibSseChannel.send msg) wb).
Proof.
  cbv zeta.
  assert (Hsame : same_channel (SseChannel.new open_options)
                               (LibSseChannel.new default_options))
    by (unfold same_channel; repeat split).
  split; [exact Hsame|].
  match goal with
  | |- log (exec (SseChannel.send ?m None) ?wa)
       = log (exec (LibSseChannel.send _) ?wb) =>
      apply (send_same_on_fresh_id m wa wb Hsame eq_refl eq_refl)
  end.
  intros e [].
Defined.

(** X21.  On the channel of [lib/sse-channel.js], a publish of a message
    object whose payload the formatter cannot take (with [autoSerialize] off,
    a truthy payload that is not a string; with [autoSerialize] on, the
    payload [undefined]) throws a TypeError before anything else is done:
    nothing is stored, nothing is written, no event is emitted. *)
Theorem LibSseChannel_send_throws_untouched :
  forall (m : MsgObject) (w : World LibSseChannel.Channel),
    (if LibSseChannel.autoSerialize (this w)
     then msg_data m = JPrim PUndefined
     else truthy (msg_data m) = true
          /\ LibSseChannel.isString (msg_data m) = false) ->
    LibSseChannel.send (MObject m) w = (Throw TypeError, w).
Proof.
  intros m w Hbad.
  assert (Hthrow : LibSseChannel.parseMessage (MObject m)
                     (LibSseChannel.autoSerialize (this w))
                   = Throw TypeError).
  { rewrite LibSseChannel_parseMessage_object.
    destruct (LibSseChannel.autoSerialize (this w)).
    - rewrite Hbad. reflexivity.
    - destruct Hbad as [Htruthy Hstr]. cbn [andb]. unfold js_or.
      rewrite Htruthy.
      destruct (msg_data m) as [[| |b|n|s]|elems|props];
        try discriminate; reflexivity. }
  unfold LibSseChannel.send, bind, get_this, lift. now rewrite Hthrow.
Qed.

(** X21, at an instance: the payload 5 with [autoSerialize] off. *)
Lemma LibSseChannel_send_throws_untouched_witness :
  let w :=
    mkWorld
      (LibSseChannel.set_connections [1%nat]
         (LibSseChannel.new
            {| LibSseChannel.opts_historySize := None;
               LibSseChannel.opts_retryTimeout := PUndefined;
               LibSseChannel.opts_pingInterval := PUndefined;
               LibSseChannel.opts_autoSerialize := Some false |})) [] in
  let m := {| msg_event := PUndefined; msg_retry := PUndefined;
              msg_id := PNum 1; msg_data := JPrim (PNum 5) |} in
  LibSseChannel.autoSerialize (this w) = false /\
  LibSseChannel.send (MObject m) w = (Throw TypeError, w).
Proof.
  cbv zeta. split; [reflexivity|].
  match goal with
  | |- LibSseChannel.send (MObject ?m) ?w = _ =>
      apply (LibSseChannel_send_throws_untouched m w)
  end.
  split; reflexivity.
Defined.

(** The channel of [lib/sse-channel.js] after the publishes of a list of
    messages, each started where the one before left the channel, whether
    it threw or not. *)
Lemma LibSseChannel_sends_step (msg : Message) (rest : list Message)
    (w : World LibSseChannel.Channel) :
  fold_left (fun w' m => exec (LibSseChannel.send m) w') (msg :: rest) w
  = fold_left (fun w' m => exec (LibSseChannel.send m) w') rest
      (exec (LibSseChannel.send msg) w).
Proof. reflexivity. Qed.

(** X22.  On the channel of [lib/sse-channel.js], whatever messages are
    published one after the other, and whether a publish throws or not, a
    history that held at most [historySize] entries still does, and
    [historySize] is what it was. *)
Theorem LibSseChannel_history_stays_bounded :
  forall (msgs : list Message) (w : World LibSseChannel.Channel),
    Z.of_nat (List.length (LibSseChannel.history (this w)))
    <= LibSseChannel.historySize (this w) ->
    let w' := fold_left (fun w' m => exec (LibSseChannel.send m) w') msgs w in
    LibSseChannel.historySize (this w') = LibSseChannel.historySize (this w) /\
    Z.of_nat (List.length (LibSseChannel.history (this w')))
    <= LibSseChannel.historySize (this w).
Proof.
  induction msgs as [|msg rest IH]; intros w Hsize w'; subst w'.
  - split; [reflexivity | exact Hsize].
  - rewrite LibSseChannel_sends_step.
    destruct (LibSseChannel_send_bounded msg w Hsize) as [Hs Hb].
    rewrite <- Hs in Hb.
    destruct (IH (exec (LibSseChannel.send msg) w) Hb) as [Hs' Hb'].
    rewrite Hs in Hs', Hb'. now split.
Qed.

(** X22, at an instance: room for one entry, three publishes, one of which
    throws. *)
Lemma LibSseChannel_history_stays_bounded_witness :
  let w :=
    mkWorld
      (LibSseChannel.new
         {| LibSseChannel.opts_historySize := Some 1;
            LibSseChannel.opts_retryTimeout := PUndefined;
            LibSseChannel.opts_pingInterval := PUndefined;
            LibSseChannel.opts_autoSerialize := Some false |}) [] in
  let msgs :=
    [MObject (text_message PUndefined PUndefined (PNum 1) "a");
     MObject {| msg_event := PUndefined; msg_retry := PUndefined;
                msg_id := PNum 2; msg_data := JPrim (PNum 5) |};
     MObject (text_message PUndefined PUndefined (PNum 3) "c")] in
  Z.of_nat (List.length (LibSseChannel.history (this w)))
  <= LibSseChannel.historySize (this w) /\
  Z.of_nat
    (List.length
       (LibSseChannel.history
          (this (fold_left (fun w' m => exec (LibSseChannel.send m) w')
                           msgs w))))
  <= 1.
Proof.
  cbv zeta.
  match goal with
  | |- ?H /\ _ => assert (Hsize : H) by (vm_compute; discriminate)
  end.
  split; [exact Hsize|].
  match goal with
  | |- Z.of_nat (List.length (LibSseChannel.history
                   (this (fold_left _ ?msgs ?w)))) <= _ =>
      exact (proj2 (LibSseChannel_history_stays_bounded msgs w Hsize))
  end.
Defined.
